(** * Line / tetrahedron intersection (q2.py) and string rotation (q1.py)

    A shallow embedding of the two Python modules of the repository.

    Numbers.  q2.py is embedded twice.  Module [Q2F] is the program as it
    runs: the coordinates are Python floats, as the annotations of q2.py
    say, IEEE 754 binary64, with rounding, overflow, underflow, signed
    zeros and NaN.  Module [Q2] is the
    same program read in exact real arithmetic ([R] of the Standard
    Library); it carries the statements that are worded in exact arithmetic
    and gives the exact geometry of binary64 inputs (module [Exact]).  In
    both, what Python adds on top of the arithmetic is kept: [/] raises
    [ZeroDivisionError] on a zero divisor, [a ** 2] raises [OverflowError],
    [math.sqrt] raises [ValueError] on a negative argument, indexing a
    tuple out of range raises [IndexError], and [raise Exception(msg)]
    in q1.py.  Every function that can raise returns a [result]. *)

From Stdlib Require Import Floats.
From Stdlib Require Import Reals Lra Lia List String Ascii ZArith Bool.
From Stdlib Require Import Permutation.
Import ListNotations.

(** ** Exceptions and the result monad *)

Inductive exn : Type :=
| ZeroDivisionError
| ValueError
| IndexError
| OverflowError
| Exception (msg : string).

Inductive result (A : Type) : Type :=
| Ok (a : A)
| Raise (e : exn).

Arguments Ok {A} a.
Arguments Raise {A} e.

Definition bind {A B : Type} (m : result A) (k : A -> result B) : result B :=
  match m with
  | Ok a => k a
  | Raise e => Raise e
  end.

Declare Scope result_scope.
Delimit Scope result_scope with result.
Notation "x <- m ;; k" := (bind m (fun x => k))
  (at level 61, m at next level, right associativity) : result_scope.

Module Q1.

Local Open Scope string_scope.
Local Open Scope Z_scope.

(** Iterating over a [str] yields its characters, each a one-character
    [str]. *)
Fixpoint chars (s : string) : list string :=
  match s with
  | EmptyString => []
  | String c t => String c EmptyString :: chars t
  end.

(** [reversed(s)] *)
Definition reversed (s : string) : list string := rev (chars s).

(** [sep.join(l)] *)
Fixpoint join (sep : string) (l : list string) : string :=
  match l with
  | [] => EmptyString
  | a :: t =>
      match t with
      | [] => a
      | _ :: _ => a ++ sep ++ join sep t
      end
  end.

(** The string literal of one line feed. *)
Definition newline : string := String (ascii_of_nat 10) EmptyString.

Definition string_rotation (s : string) (angle : Z) : result string :=
  if angle =? 0 then Ok s
  else if angle =? 90 then Ok (join newline (reversed s))
  else if angle =? 180 then Ok (join EmptyString (reversed s))
  else if angle =? 270 then Ok (join newline (chars s))
  else Raise (Exception "Invalid angle").

End Q1.

Module Q2.

Local Open Scope R_scope.
Local Open Scope result_scope.

(** ** Python's numeric primitives in exact real arithmetic

    Over the reals a square neither overflows nor underflows, so [a ** 2]
    is [a ^ 2] and never raises. *)

(** [EPSILON = 0.00001] *)
Definition EPSILON : R := 1 / 100000.

(** [a < b] and [a <= b] as Python booleans. *)
Definition Rltb (a b : R) : bool := if Rlt_dec a b then true else false.
Definition Rleb (a b : R) : bool := if Rle_dec a b then true else false.

(** [a / b]: true division, raising on a zero divisor. *)
Definition truediv (a b : R) : result R :=
  if Req_dec_T b 0 then Raise ZeroDivisionError else Ok (a / b).

(** [math.sqrt(a)]: raising on a negative argument. *)
Definition math_sqrt (a : R) : result R :=
  if Rlt_dec a 0 then Raise ValueError else Ok (sqrt a).

(** [t[i]] on a tuple, here a list. *)
Definition getitem {A : Type} (t : list A) (i : nat) : result A :=
  match nth_error t i with
  | Some a => Ok a
  | None => Raise IndexError
  end.

(** [itertools.combinations(l, r)]: the [r]-length subsequences of [l], in
    lexicographic order of their positions in [l] (the library's documented
    order). *)
Fixpoint combinations {A : Type} (l : list A) (r : nat) {struct l}
  : list (list A) :=
  match r with
  | O => [[]]
  | S r' =>
      match l with
      | [] => []
      | a :: t => map (cons a) (combinations t r') ++ combinations t r
      end
  end.

(** [tuple(f(a) for a in l)] with a body that can raise: the first exception
    stops the generator. *)
Fixpoint traverse {A B : Type} (f : A -> result B) (l : list A)
  : result (list B) :=
  match l with
  | [] => Ok []
  | a :: t => b <- f a ;; bs <- traverse f t ;; Ok (b :: bs)
  end.

(** ** class Vector3 *)

Record Vector3 : Type := mkVector3 { x : R; y : R; z : R }.

Definition cross_product (self other : Vector3) : Vector3 :=
  mkVector3 (y self * z other - z self * y other)
            (z self * x other - x self * z other)
            (x self * y other - y self * x other).

Definition dot_product (self other : Vector3) : R :=
  x self * x other + y self * y other + z self * z other.

Definition sub (self other : Vector3) : Vector3 :=
  mkVector3 (x self - x other) (y self - y other) (z self - z other).

Definition add (self other : Vector3) : Vector3 :=
  mkVector3 (x self + x other) (y self + y other) (z self + z other).

Definition mul (self : Vector3) (other : R) : Vector3 :=
  mkVector3 (x self * other) (y self * other) (z self * other).

Definition magnitude (self : Vector3) : result R :=
  math_sqrt (x self ^ 2 + y self ^ 2 + z self ^ 2).

Declare Scope vec_scope.
Delimit Scope vec_scope with vec.
Bind Scope vec_scope with Vector3.
Infix "-" := sub : vec_scope.
Infix "+" := add : vec_scope.
Infix "*" := mul : vec_scope.

(** ** class Line *)

Record Line : Type := mkLine { point1 : Vector3; direction : Vector3 }.

Definition direction_vector (self : Line) : Vector3 := direction self.

(** ** class Plane *)

Record Plane : Type := mkPlane {
  plane_vertices : Vector3 * Vector3 * Vector3;
  normal_v : Vector3
}.

(** [Plane.__init__]: the normal is derived from the three vertices. *)
Definition Plane_init (vertices : Vector3 * Vector3 * Vector3) : Plane :=
  let '(v0, v1, v2) := vertices in
  mkPlane vertices (cross_product (v1 - v0) (v2 - v0)).

Definition normal_vector (self : Plane) : Vector3 := normal_v self.

(** [plane.vertices[0]], [plane.vertices[1]], [plane.vertices[2]] *)
Definition vertex0 (self : Plane) : Vector3 := fst (fst (plane_vertices self)).
Definition vertex1 (self : Plane) : Vector3 := snd (fst (plane_vertices self)).
Definition vertex2 (self : Plane) : Vector3 := snd (plane_vertices self).

(** ** class Pyramid *)

Record Pyramid : Type := mkPyramid {
  pyramid_vertices : Vector3 * Vector3 * Vector3 * Vector3
}.

(** The 4-tuple of vertices as the sequence [combinations] iterates over. *)
Definition vertex_list (self : Pyramid) : list Vector3 :=
  let '(v0, v1, v2, v3) := pyramid_vertices self in [v0; v1; v2; v3].

Definition faces (self : Pyramid) : result (list Plane) :=
  traverse
    (fun f =>
       f0 <- getitem f 0 ;; f1 <- getitem f 1 ;; f2 <- getitem f 2 ;;
       Ok (Plane_init (f0, f1, f2)))
    (combinations (vertex_list self) 3).

(** ** The solver, the membership test and the query *)

Definition line_plane_intersection_point (line : Line) (plane : Plane)
  : result (option Vector3) :=
  if Rltb (Rabs (dot_product (direction_vector line) (normal_vector plane)))
          EPSILON
  then Ok None
  else if Rltb (Rabs (dot_product (vertex0 plane - point1 line)
                                  (normal_vector plane)))
               EPSILON
  then Ok None
  else
    d <- truediv (dot_product (vertex0 plane - point1 line)
                              (normal_vector plane))
                 (dot_product (direction_vector line) (normal_vector plane)) ;;
    Ok (Some (point1 line + direction_vector line * d)%vec).

Definition point_in_triangle (point : Vector3) (triangle : Plane)
  : result bool :=
  m <- magnitude (cross_product (vertex1 triangle - vertex0 triangle)
                                (vertex2 triangle - vertex0 triangle)) ;;
  triangle_area <- truediv m 2 ;;
  m1 <- magnitude (cross_product (point - vertex1 triangle)
                                 (point - vertex2 triangle)) ;;
  sub_triangle_1 <- truediv m1 (2 * triangle_area) ;;
  m2 <- magnitude (cross_product (point - vertex2 triangle)
                                 (point - vertex0 triangle)) ;;
  sub_triangle_2 <- truediv m2 (2 * triangle_area) ;;
  m3 <- magnitude (cross_product (point - vertex0 triangle)
                                 (point - vertex1 triangle)) ;;
  sub_triangle_3 <- truediv m3 (2 * triangle_area) ;;
  Ok (forallb (fun area => Rleb 0 area && Rleb area 1)
              [sub_triangle_1; sub_triangle_2; sub_triangle_3]
      && Rltb (sub_triangle_1 + sub_triangle_2 + sub_triangle_3 - 1) EPSILON).

(** The body of the [for face in ...] loop of [line_intersection_with_pyramid],
    over the faces still to visit. *)
Fixpoint scan_faces (line : Line) (fs : list Plane) : result bool :=
  match fs with
  | [] => Ok false
  | face :: rest =>
      intersection_point <- line_plane_intersection_point line face ;;
      match intersection_point with
      | None => scan_faces line rest
      | Some p =>
          inside <- point_in_triangle p face ;;
          if inside then Ok true else scan_faces line rest
      end
  end.

Definition line_intersection_with_pyramid (line : Line) (pyramid : Pyramid)
  : result bool :=
  fs <- faces pyramid ;; scan_faces line fs.

(** ** Vocabulary of the specification *)

(** The zero vector and the negation of a vector. *)
Definition zero : Vector3 := mkVector3 0 0 0.
Definition opp (v : Vector3) : Vector3 := mkVector3 (- x v) (- y v) (- z v).

(** The Euclidean norm [|v|] as a real number. *)
Definition norm (v : Vector3) : R := sqrt (x v ^ 2 + y v ^ 2 + z v ^ 2).

(** Area of the triangle [a b c]: [|cross(b - a, c - a)| / 2]. *)
Definition area (a b c : Vector3) : R :=
  norm (cross_product (b - a) (c - a)) / 2.

(** The full area [A] of a face. *)
Definition face_area (t : Plane) : R :=
  area (vertex0 t) (vertex1 t) (vertex2 t).

(** Ratio of the sub-triangle formed by [p] and the vertices [a], [b] to the
    full area of [t]. *)
Definition area_ratio (p a b : Vector3) (t : Plane) : R :=
  area p a b / face_area t.

(** Three points are collinear when the two edge vectors out of the first one
    are linearly dependent. *)
Definition collinear (a b c : Vector3) : Prop :=
  exists s t : R, (s <> 0 \/ t <> 0) /\ ((b - a) * s = (c - a) * t)%vec.

(** Every 3-element subset of the vertices of a pyramid is non-collinear. *)
Definition non_degenerate (pyramid : Pyramid) : Prop :=
  forall a b c : Vector3,
    In [a; b; c] (combinations (vertex_list pyramid) 3) -> ~ collinear a b c.

(** The scalar [d] of the solver. *)
Definition solver_d (line : Line) (plane : Plane) : R :=
  dot_product (vertex0 plane - point1 line) (normal_vector plane)
  / dot_product (direction_vector line) (normal_vector plane).

(** One of the two tolerance checks of the solver fires. *)
Definition no_intersection (line : Line) (plane : Plane) : Prop :=
  Rabs (dot_product (direction_vector line) (normal_vector plane)) < EPSILON
  \/ Rabs (dot_product (vertex0 plane - point1 line) (normal_vector plane))
     < EPSILON.

(** A face yields an intersection point that the membership test accepts. *)
Definition accepts (line : Line) (face : Plane) : Prop :=
  exists p : Vector3,
    line_plane_intersection_point line face = Ok (Some p)
    /\ point_in_triangle p face = Ok true.

(** A plane object as the constructor leaves it. *)
Definition constructed (plane : Plane) : Prop :=
  plane = Plane_init (plane_vertices plane).

(** The vertex of a pyramid at a position of its 4-tuple. *)
Definition vertex_at (pyramid : Pyramid) (i : nat) : Vector3 :=
  nth i (vertex_list pyramid) zero.

(** The plane built from the vertices at three positions. *)
Definition face_at (pyramid : Pyramid) (idx : list nat) : Plane :=
  Plane_init (vertex_at pyramid (nth 0 idx 0%nat),
              vertex_at pyramid (nth 1 idx 0%nat),
              vertex_at pyramid (nth 2 idx 0%nat)).

(** The positions of the faces' vertices in the pyramid's 4-tuple, in the
    order of section 4.3 of the specification. *)
Definition face_indices : list (list nat) :=
  [[0; 1; 2]; [0; 1; 3]; [0; 2; 3]; [1; 2; 3]]%nat.

(** The faces of a pyramid in the order of section 4.3. *)
Definition faces_in_order (pyramid : Pyramid) : list Plane :=
  map (face_at pyramid) face_indices.

(** Two position lists denote the same subset. *)
Definition same_subset (i j : list nat) : Prop :=
  forall n : nat, In n i <-> In n j.

(** The line with the same origin and the opposite direction. *)
Definition reverse_line (line : Line) : Line :=
  mkLine (point1 line) (opp (direction line)).

(** A point satisfies the plane equation of a face. *)
Definition on_plane (p : Vector3) (t : Plane) : Prop :=
  dot_product (p - vertex0 t) (normal_vector t) = 0.

(** The point of the plane of the triangle [a b c] with coordinates [s]
    along the edge [a b] and [u] along the edge [a c]. *)
Definition edge_point (a b c : Vector3) (s u : R) : Vector3 :=
  (a + (b - a) * s + (c - a) * u)%vec.

(** A line and a pyramid moved by the vector [t]. *)
Definition translate_line (t : Vector3) (line : Line) : Line :=
  mkLine (point1 line + t) (direction line).

Definition translate_pyramid (t : Vector3) (pyramid : Pyramid) : Pyramid :=
  let '(v0, v1, v2, v3) := pyramid_vertices pyramid in
  mkPyramid ((v0 + t)%vec, (v1 + t)%vec, (v2 + t)%vec, (v3 + t)%vec).

(** The conditions (a) and (b) of the membership test on three ratios. *)
Definition ratio_checks (r1 r2 r3 : R) : bool :=
  forallb (fun area => Rleb 0 area && Rleb area 1) [r1; r2; r3]
  && Rltb (r1 + r2 + r3 - 1) EPSILON.

(** ** Concrete inputs *)

(** A line through (0,0,1) along (0,0,1) and the triangle (0,0,0), (1,0,0),
    (0,1,0) of the plane z = 0: the solver's solution has d = -1. *)
Definition line_behind : Line := mkLine (mkVector3 0 0 1) (mkVector3 0 0 1).
Definition plane_z0 : Plane :=
  Plane_init (mkVector3 0 0 0, mkVector3 1 0 0, mkVector3 0 1 0).

(** The line and the two pyramids of the module's [__main__] block. *)
Definition main_line : Line := mkLine (mkVector3 0 0 0) (mkVector3 1 1 1).
Definition main_pyramid : Pyramid :=
  mkPyramid (mkVector3 0 0 0, mkVector3 1 0 0, mkVector3 0 1 0,
             mkVector3 1 1 1).
Definition main_pyramid2 : Pyramid :=
  mkPyramid (mkVector3 0 0 0, mkVector3 1 0 0, mkVector3 0 1 0,
             mkVector3 0 0 (-1)).

End Q2.

(** * q2.py on binary64 numbers

    The same module with the coordinates as Python floats: IEEE 754 binary64
    with rounding to nearest, the kernel's primitive floats.  [+], [-] and
    [*] never raise (an overflow gives an infinity), [/] raises
    [ZeroDivisionError] on a divisor equal to zero of either sign and
    otherwise rounds, [a ** 2] raises [OverflowError] when a finite [a] has
    an infinite square and is taken to round as [a * a] does, and
    [math.sqrt] raises [ValueError] on a negative argument.  Comparisons
    with a NaN are false. *)

Module Q2F.

Local Open Scope float_scope.
Local Open Scope result_scope.

(** [EPSILON = 0.00001]: the binary64 number nearest to the literal. *)
Definition EPSILON : float := 0x1.4f8b588e368f1p-17.

(** [a / b] *)
Definition truediv (a b : float) : result float :=
  if b =? 0 then Raise ZeroDivisionError else Ok (a / b).

(** [a ** 2] *)
Definition pow2 (a : float) : result float :=
  if PrimFloat.is_nan a then Ok a
  else if PrimFloat.is_infinity a then Ok infinity
  else if PrimFloat.is_infinity (a * a) then Raise OverflowError
  else Ok (a * a).

(** [math.sqrt(a)] *)
Definition math_sqrt (a : float) : result float :=
  if a <? 0 then Raise ValueError else Ok (PrimFloat.sqrt a).

(** ** class Vector3 *)

Record Vector3 : Type := mkVector3 { x : float; y : float; z : float }.

Definition cross_product (self other : Vector3) : Vector3 :=
  mkVector3 (y self * z other - z self * y other)
            (z self * x other - x self * z other)
            (x self * y other - y self * x other).

Definition dot_product (self other : Vector3) : float :=
  x self * x other + y self * y other + z self * z other.

Definition sub (self other : Vector3) : Vector3 :=
  mkVector3 (x self - x other) (y self - y other) (z self - z other).

Definition add (self other : Vector3) : Vector3 :=
  mkVector3 (x self + x other) (y self + y other) (z self + z other).

Definition mul (self : Vector3) (other : float) : Vector3 :=
  mkVector3 (x self * other) (y self * other) (z self * other).

Definition magnitude (self : Vector3) : result float :=
  sx <- pow2 (x self) ;;
  sy <- pow2 (y self) ;;
  sz <- pow2 (z self) ;;
  math_sqrt (sx + sy + sz).

(** ** class Line *)

Record Line : Type := mkLine { point1 : Vector3; direction : Vector3 }.

Definition direction_vector (self : Line) : Vector3 := direction self.

(** ** class Plane *)

Record Plane : Type := mkPlane {
  plane_vertices : Vector3 * Vector3 * Vector3;
  normal_v : Vector3
}.

Definition Plane_init (vertices : Vector3 * Vector3 * Vector3) : Plane :=
  let '(v0, v1, v2) := vertices in
  mkPlane vertices (cross_product (sub v1 v0) (sub v2 v0)).

Definition normal_vector (self : Plane) : Vector3 := normal_v self.

Definition vertex0 (self : Plane) : Vector3 := fst (fst (plane_vertices self)).
Definition vertex1 (self : Plane) : Vector3 := snd (fst (plane_vertices self)).
Definition vertex2 (self : Plane) : Vector3 := snd (plane_vertices self).

(** ** class Pyramid *)

Record Pyramid : Type := mkPyramid {
  pyramid_vertices : Vector3 * Vector3 * Vector3 * Vector3
}.

Definition vertex_list (self : Pyramid) : list Vector3 :=
  let '(v0, v1, v2, v3) := pyramid_vertices self in [v0; v1; v2; v3].

Definition faces (self : Pyramid) : result (list Plane) :=
  Q2.traverse
    (fun f =>
       f0 <- Q2.getitem f 0 ;; f1 <- Q2.getitem f 1 ;;
       f2 <- Q2.getitem f 2 ;;
       Ok (Plane_init (f0, f1, f2)))
    (Q2.combinations (vertex_list self) 3).

(** ** The solver, the membership test and the query *)

Definition line_plane_intersection_point (line : Line) (plane : Plane)
  : result (option Vector3) :=
  if PrimFloat.abs (dot_product (direction_vector line)
                                (normal_vector plane)) <? EPSILON
  then Ok None
  else if PrimFloat.abs (dot_product (sub (vertex0 plane) (point1 line))
                                     (normal_vector plane)) <? EPSILON
  then Ok None
  else
    d <- truediv (dot_product (sub (vertex0 plane) (point1 line))
                              (normal_vector plane))
                 (dot_product (direction_vector line) (normal_vector plane)) ;;
    Ok (Some (add (point1 line) (mul (direction_vector line) d))).

Definition point_in_triangle (point : Vector3) (triangle : Plane)
  : result bool :=
  m <- magnitude (cross_product (sub (vertex1 triangle) (vertex0 triangle))
                                (sub (vertex2 triangle) (vertex0 triangle))) ;;
  triangle_area <- truediv m 2 ;;
  m1 <- magnitude (cross_product (sub point (vertex1 triangle))
                                 (sub point (vertex2 triangle))) ;;
  sub_triangle_1 <- truediv m1 (2 * triangle_area) ;;
  m2 <- magnitude (cross_product (sub point (vertex2 triangle))
                                 (sub point (vertex0 triangle))) ;;
  sub_triangle_2 <- truediv m2 (2 * triangle_area) ;;
  m3 <- magnitude (cross_product (sub point (vertex0 triangle))
                                 (sub point (vertex1 triangle))) ;;
  sub_triangle_3 <- truediv m3 (2 * triangle_area) ;;
  Ok (forallb (fun area => (0 <=? area) && (area <=? 1))
              [sub_triangle_1; sub_triangle_2; sub_triangle_3]
      && (sub_triangle_1 + sub_triangle_2 + sub_triangle_3 - 1 <? EPSILON)).

Fixpoint scan_faces (line : Line) (fs : list Plane) : result bool :=
  match fs with
  | [] => Ok false
  | face :: rest =>
      intersection_point <- line_plane_intersection_point line face ;;
      match intersection_point with
      | None => scan_faces line rest
      | Some p =>
          inside <- point_in_triangle p face ;;
          if inside then Ok true else scan_faces line rest
      end
  end.

Definition line_intersection_with_pyramid (line : Line) (pyramid : Pyramid)
  : result bool :=
  fs <- faces pyramid ;; scan_faces line fs.

(** ** Vocabulary *)

Definition opp (v : Vector3) : Vector3 :=
  mkVector3 (- x v) (- y v) (- z v).

(** [a] is the negation of [b]: [a == -b] holds, or both are NaN. *)
Definition negation_of (a b : float) : Prop :=
  (a =? - b) = true
  \/ (PrimFloat.is_nan a = true /\ PrimFloat.is_nan b = true).

(** The four faces in the order of section 4.3. *)
Definition faces_in_order (pyramid : Pyramid) : list Plane :=
  let '(v0, v1, v2, v3) := pyramid_vertices pyramid in
  [Plane_init (v0, v1, v2); Plane_init (v0, v1, v3);
   Plane_init (v0, v2, v3); Plane_init (v1, v2, v3)].

(** The three outcomes of one turn of the loop on a face. *)
Definition accepts (line : Line) (face : Plane) : Prop :=
  exists p : Vector3,
    line_plane_intersection_point line face = Ok (Some p)
    /\ point_in_triangle p face = Ok true.

Definition rejects (line : Line) (face : Plane) : Prop :=
  line_plane_intersection_point line face = Ok None
  \/ exists p : Vector3,
       line_plane_intersection_point line face = Ok (Some p)
       /\ point_in_triangle p face = Ok false.

Definition raises (line : Line) (face : Plane) (e : exn) : Prop :=
  line_plane_intersection_point line face = Raise e
  \/ exists p : Vector3,
       line_plane_intersection_point line face = Ok (Some p)
       /\ point_in_triangle p face = Raise e.

(** The cross product whose magnitude the membership test halves, and the
    three whose magnitudes it divides. *)
Definition edge_cross (t : Plane) : Vector3 :=
  cross_product (sub (vertex1 t) (vertex0 t)) (sub (vertex2 t) (vertex0 t)).

Definition point_cross (p a b : Vector3) : Vector3 :=
  cross_product (sub p a) (sub p b).

(** The divisor [2 * triangle_area] computed from the magnitude [m]. *)
Definition doubled_area (m : float) : float := 2 * (m / 2).

(** The boolean returned on three computed quotients. *)
Definition ratio_checks (q1 q2 q3 : float) : bool :=
  forallb (fun area => (0 <=? area) && (area <=? 1)) [q1; q2; q3]
  && (q1 + q2 + q3 - 1 <? EPSILON).


(** ** Concrete inputs *)

(** A small right triangle with legs 2^-300 at the origin, the pyramid on
    it with apex (0,0,1), and the line through (0,0,2^600) along the
    z axis. *)
Definition small_triangle : Plane :=
  Plane_init (mkVector3 0 0 0, mkVector3 0x1p-300 0 0,
              mkVector3 0 0x1p-300 0).
Definition small_pyramid : Pyramid :=
  mkPyramid (mkVector3 0 0 0, mkVector3 0x1p-300 0 0,
             mkVector3 0 0x1p-300 0, mkVector3 0 0 1).
Definition z_axis : Line :=
  mkLine (mkVector3 0 0 0x1p600) (mkVector3 0 0 0x1p600).

(** The vertices 0.1, 0.2, 0.3 / 0.7, 0.5, 0.9 / 0.4, 0.8, 0.6, each
    coordinate the binary64 number nearest to the decimal. *)
Definition decimal_v0 : Vector3 :=
  mkVector3 0x1.999999999999ap-4 0x1.999999999999ap-3 0x1.3333333333333p-2.
Definition decimal_v1 : Vector3 :=
  mkVector3 0x1.6666666666666p-1 0x1p-1 0x1.ccccccccccccdp-1.
Definition decimal_v2 : Vector3 :=
  mkVector3 0x1.999999999999ap-2 0x1.999999999999ap-1 0x1.3333333333333p-1.

(** The line and the first pyramid of the [__main__] block. *)
Definition main_line : Line := mkLine (mkVector3 0 0 0) (mkVector3 1 1 1).
Definition main_pyramid : Pyramid :=
  mkPyramid (mkVector3 0 0 0, mkVector3 1 0 0, mkVector3 0 1 0,
             mkVector3 1 1 1).

End Q2F.

(** * Exact values of binary64 inputs *)

Module Exact.

Local Open Scope R_scope.

(** The real number a finite binary64 number stands for. *)
Definition F2R (f : float) : R :=
  match Prim2SF f with
  | S754_finite s m e => IZR (if s then Zneg m else Zpos m) * powerRZ 2 e
  | _ => 0
  end.

Definition vector (v : Q2F.Vector3) : Q2.Vector3 :=
  Q2.mkVector3 (F2R (Q2F.x v)) (F2R (Q2F.y v)) (F2R (Q2F.z v)).

(** The plane of the exact vertices, with its exact normal. *)
Definition plane (t : Q2F.Plane) : Q2.Plane :=
  Q2.Plane_init (vector (Q2F.vertex0 t), vector (Q2F.vertex1 t),
                 vector (Q2F.vertex2 t)).

Definition pyramid (p : Q2F.Pyramid) : Q2.Pyramid :=
  let '(v0, v1, v2, v3) := Q2F.pyramid_vertices p in
  Q2.mkPyramid (vector v0, vector v1, vector v2, vector v3).

End Exact.

(** * Properties of q2.py in exact real arithmetic *)

Section Geometry.

Import Q2.
Local Open Scope R_scope.
Local Open Scope result_scope.

(** ** Comparisons, division and square root *)

Lemma Rltb_true (a b : R) : Rltb a b = true <-> a < b.
Proof. unfold Rltb. destruct (Rlt_dec a b); split; intros; congruence. Qed.

Lemma Rltb_false (a b : R) : Rltb a b = false <-> ~ a < b.
Proof. unfold Rltb. destruct (Rlt_dec a b); split; intros; congruence. Qed.

Lemma Rleb_true (a b : R) : Rleb a b = true <-> a <= b.
Proof. unfold Rleb. destruct (Rle_dec a b); split; intros; congruence. Qed.

Lemma EPSILON_pos : 0 < EPSILON.
Proof. unfold EPSILON. lra. Qed.

Lemma truediv_nonzero (a b : R) : b <> 0 -> truediv a b = Ok (a / b).
Proof. intros Hb. unfold truediv. destruct (Req_dec_T b 0); congruence. Qed.

Lemma truediv_zero (a b : R) : b = 0 -> truediv a b = Raise ZeroDivisionError.
Proof. intros Hb. unfold truediv. destruct (Req_dec_T b 0); congruence. Qed.

Lemma sum_squares_nonneg (a b c : R) : 0 <= a ^ 2 + b ^ 2 + c ^ 2.
Proof. nra. Qed.

(** [magnitude] never raises: its argument is a sum of squares. *)
Lemma magnitude_norm (v : Vector3) : magnitude v = Ok (norm v).
Proof.
  unfold magnitude, math_sqrt, norm.
  destruct (Rlt_dec _ 0) as [Hneg | _]; [ | reflexivity ].
  pose proof (sum_squares_nonneg (x v) (y v) (z v)). lra.
Qed.

Lemma norm_zero_iff (v : Vector3) : norm v = 0 <-> v = zero.
Proof.
  unfold norm. split.
  - intros H. apply sqrt_eq_0 in H; [ | apply sum_squares_nonneg ].
    destruct v as [a b c]. simpl in H. unfold zero.
    assert (a = 0) by nra. assert (b = 0) by nra. assert (c = 0) by nra.
    subst. reflexivity.
  - intros ->. cbn [x y z zero].
    replace (0 ^ 2 + 0 ^ 2 + 0 ^ 2) with 0 by ring. apply sqrt_0.
Qed.

(** ** Vectors *)

Lemma vector_eq (a b : Vector3) :
  x a = x b -> y a = y b -> z a = z b -> a = b.
Proof. destruct a, b. simpl. intros -> -> ->. reflexivity. Qed.

Ltac vec_ring :=
  apply vector_eq; cbn [x y z cross_product sub add mul opp zero]; ring.

Lemma cross_product_anticommutative (a b : Vector3) :
  cross_product a b = opp (cross_product b a).
Proof. vec_ring. Qed.

Lemma dot_product_zero_r (a : Vector3) : dot_product a zero = 0.
Proof. unfold dot_product. cbn [x y z zero]. ring. Qed.

(** ** The solver *)

Lemma solver_guard_nonzero (a : R) : ~ Rabs a < EPSILON -> a <> 0.
Proof.
  intros Hge ->. apply Hge. rewrite Rabs_R0. exact EPSILON_pos.
Qed.

Lemma solver_none (line : Line) (plane : Plane) :
  no_intersection line plane ->
  line_plane_intersection_point line plane = Ok None.
Proof.
  unfold no_intersection, line_plane_intersection_point.
  intros [Hpar | Hin].
  - apply Rltb_true in Hpar. rewrite Hpar. reflexivity.
  - apply Rltb_true in Hin.
    destruct (Rltb (Rabs (dot_product (direction_vector line) _)) EPSILON);
      [ reflexivity | ].
    rewrite Hin. reflexivity.
Qed.

Lemma solver_some (line : Line) (plane : Plane) :
  ~ no_intersection line plane ->
  line_plane_intersection_point line plane
  = Ok (Some (point1 line + direction_vector line * solver_d line plane)%vec).
Proof.
  unfold no_intersection, line_plane_intersection_point, solver_d.
  intros Hno.
  assert (Hpar : ~ Rabs (dot_product (direction_vector line)
                                     (normal_vector plane)) < EPSILON) by tauto.
  assert (Hin : ~ Rabs (dot_product (vertex0 plane - point1 line)
                                    (normal_vector plane)) < EPSILON) by tauto.
  apply Rltb_false in Hpar as Hpar'. apply Rltb_false in Hin as Hin'.
  rewrite Hpar', Hin'.
  rewrite truediv_nonzero by (apply solver_guard_nonzero; exact Hpar).
  reflexivity.
Qed.

Lemma no_intersection_dec (line : Line) (plane : Plane) :
  no_intersection line plane \/ ~ no_intersection line plane.
Proof.
  unfold no_intersection.
  destruct (Rlt_dec (Rabs (dot_product (direction_vector line)
                                       (normal_vector plane))) EPSILON);
  destruct (Rlt_dec (Rabs (dot_product (vertex0 plane - point1 line)
                                       (normal_vector plane))) EPSILON);
  tauto.
Qed.

(** The solver's division is guarded: it never raises. *)
Lemma solver_total (line : Line) (plane : Plane) :
  exists r : option Vector3, line_plane_intersection_point line plane = Ok r.
Proof.
  destruct (no_intersection_dec line plane) as [H | H].
  - rewrite (solver_none _ _ H). eauto.
  - rewrite (solver_some _ _ H). eauto.
Qed.

Lemma solver_some_inv (line : Line) (plane : Plane) (p : Vector3) :
  line_plane_intersection_point line plane = Ok (Some p) ->
  ~ no_intersection line plane
  /\ p = (point1 line + direction_vector line * solver_d line plane)%vec.
Proof.
  intros Hp. destruct (no_intersection_dec line plane) as [H | H].
  - rewrite (solver_none _ _ H) in Hp. discriminate.
  - rewrite (solver_some _ _ H) in Hp. split; [ exact H | congruence ].
Qed.

Lemma line_behind_checks : ~ no_intersection line_behind plane_z0.
Proof.
  unfold no_intersection, dot_product, EPSILON. simpl.
  intros [H | H]; revert H; apply Rle_not_lt.
  - replace (0 * _ + 0 * _ + 1 * _) with 1 by ring.
    rewrite Rabs_R1. lra.
  - replace ((0 - 0) * _ + (0 - 0) * _ + (0 - 1) * _) with (- (1)) by ring.
    rewrite Rabs_Ropp, Rabs_R1. lra.
Qed.

Lemma line_behind_d : solver_d line_behind plane_z0 = -1.
Proof. unfold solver_d, dot_product. simpl. field. Qed.


(** C7: a point returned by the solver is [linePoint + d * direction] for
    [d = ((faceVertex0 - linePoint) . normal) / (direction . normal)], and it
    satisfies the plane equation [(p - faceVertex0) . normal = 0]. *)
Theorem solver_point_on_plane (line : Line) (plane : Plane) (p : Vector3) :
  line_plane_intersection_point line plane = Ok (Some p) ->
  p = (point1 line + direction_vector line * solver_d line plane)%vec
  /\ solver_d line plane
     = dot_product (vertex0 plane - point1 line) (normal_vector plane)
       / dot_product (direction_vector line) (normal_vector plane)
  /\ dot_product (p - vertex0 plane) (normal_vector plane) = 0.
Proof.
  intros Hp. apply solver_some_inv in Hp as [Hno ->].
  split; [ reflexivity | split; [ reflexivity | ] ].
  assert (Hden : dot_product (direction_vector line) (normal_vector plane)
                 <> 0).
  { apply solver_guard_nonzero. unfold no_intersection in Hno. tauto. }
  unfold solver_d. revert Hden. unfold dot_product.
  cbn [x y z sub add mul]. intros Hden. field. exact Hden.
Qed.

Lemma solver_point_on_plane_witness :
  line_plane_intersection_point line_behind plane_z0
  = Ok (Some (mkVector3 0 0 0))
  /\ (mkVector3 0 0 0
      = (point1 line_behind
         + direction_vector line_behind * solver_d line_behind plane_z0)%vec
      /\ solver_d line_behind plane_z0
         = dot_product (vertex0 plane_z0 - point1 line_behind)
                       (normal_vector plane_z0)
           / dot_product (direction_vector line_behind)
                         (normal_vector plane_z0)
      /\ dot_product (mkVector3 0 0 0 - vertex0 plane_z0)
                     (normal_vector plane_z0) = 0).
Proof.
  assert (H : line_plane_intersection_point line_behind plane_z0
              = Ok (Some (mkVector3 0 0 0))).
  { rewrite (solver_some _ _ line_behind_checks), line_behind_d.
    do 2 f_equal. apply vector_eq; simpl; ring. }
  split; [ exact H | ].
  exact (solver_point_on_plane line_behind plane_z0 (mkVector3 0 0 0) H).
Defined.

(** ** The membership test *)

Lemma face_area_zero_iff (t : Plane) :
  face_area t = 0
  <-> cross_product (vertex1 t - vertex0 t) (vertex2 t - vertex0 t) = zero.
Proof.
  unfold face_area, area. rewrite <- norm_zero_iff. split; intros H; lra.
Qed.

(** The three quotients computed by [point_in_triangle]. *)
Lemma quotient_is_area_ratio (p a b : Vector3) (t : Plane) :
  face_area t <> 0 ->
  norm (cross_product (p - a) (p - b)) / (2 * face_area t)
  = area_ratio p a b t.
Proof.
  intros HA. unfold area_ratio, area.
  replace (cross_product (a - p) (b - p))
    with (cross_product (p - a) (p - b)) by vec_ring.
  field. exact HA.
Qed.

Lemma point_in_triangle_degenerate (p : Vector3) (t : Plane) :
  face_area t = 0 -> point_in_triangle p t = Raise ZeroDivisionError.
Proof.
  intros HA. unfold point_in_triangle.
  rewrite !magnitude_norm. cbn [bind].
  rewrite (truediv_nonzero _ 2) by lra. cbn [bind].
  rewrite truediv_zero; [ reflexivity | ].
  unfold face_area, area in HA. lra.
Qed.

Lemma point_in_triangle_regular (p : Vector3) (t : Plane) :
  face_area t <> 0 ->
  point_in_triangle p t
  = Ok (forallb (fun r => Rleb 0 r && Rleb r 1)
                [area_ratio p (vertex1 t) (vertex2 t) t;
                 area_ratio p (vertex2 t) (vertex0 t) t;
                 area_ratio p (vertex0 t) (vertex1 t) t]
        && Rltb (area_ratio p (vertex1 t) (vertex2 t) t
                 + area_ratio p (vertex2 t) (vertex0 t) t
                 + area_ratio p (vertex0 t) (vertex1 t) t - 1) EPSILON).
Proof.
  intros HA. unfold point_in_triangle.
  rewrite !magnitude_norm. cbn [bind].
  rewrite (truediv_nonzero _ 2) by lra. cbn [bind].
  fold (area (vertex0 t) (vertex1 t) (vertex2 t)). fold (face_area t).
  rewrite !truediv_nonzero by lra. cbn [bind].
  rewrite !quotient_is_area_ratio by exact HA. reflexivity.
Qed.

(** The conditions (a) and (b) of the membership test on three ratios. *)
Lemma ratio_checks_true (r1 r2 r3 : R) :
  forallb (fun r => Rleb 0 r && Rleb r 1) [r1; r2; r3]
  && Rltb (r1 + r2 + r3 - 1) EPSILON = true
  <-> (0 <= r1 <= 1) /\ (0 <= r2 <= 1) /\ (0 <= r3 <= 1)
      /\ r1 + r2 + r3 - 1 < EPSILON.
Proof.
  cbn [forallb]. rewrite !andb_true_iff, !Rleb_true, Rltb_true. tauto.
Qed.

(** X28: over exact reals, on a triangle of nonzero area the membership test
    returns true exactly when each of the three area ratios lies in [0, 1] and
    their sum passes the one-sided check [sum - 1 < EPSILON]; it returns false
    otherwise. *)
Theorem point_in_triangle_iff_ratio_checks (p : Vector3) (t : Plane) :
  face_area t <> 0 ->
  (point_in_triangle p t = Ok true
   <-> (0 <= area_ratio p (vertex1 t) (vertex2 t) t <= 1)
       /\ (0 <= area_ratio p (vertex2 t) (vertex0 t) t <= 1)
       /\ (0 <= area_ratio p (vertex0 t) (vertex1 t) t <= 1)
       /\ area_ratio p (vertex1 t) (vertex2 t) t
          + area_ratio p (vertex2 t) (vertex0 t) t
          + area_ratio p (vertex0 t) (vertex1 t) t - 1 < EPSILON)
  /\ (point_in_triangle p t = Ok false
      <-> ~ ((0 <= area_ratio p (vertex1 t) (vertex2 t) t <= 1)
             /\ (0 <= area_ratio p (vertex2 t) (vertex0 t) t <= 1)
             /\ (0 <= area_ratio p (vertex0 t) (vertex1 t) t <= 1)
             /\ area_ratio p (vertex1 t) (vertex2 t) t
                + area_ratio p (vertex2 t) (vertex0 t) t
                + area_ratio p (vertex0 t) (vertex1 t) t - 1 < EPSILON)).
Proof.
  intros HA. rewrite (point_in_triangle_regular p t HA).
  rewrite <- ratio_checks_true.
  destruct (forallb _ _ && Rltb _ EPSILON); split; split;
    intros H; try congruence; try reflexivity.
Qed.

(** ** Collinear vertices *)

Lemma cross_zero_iff_dependent (u w : Vector3) :
  cross_product u w = zero
  <-> exists s t : R, (s <> 0 \/ t <> 0) /\ (u * s = w * t)%vec.
Proof.
  destruct u as [ux uy uz], w as [wx wy wz].
  unfold cross_product, mul, zero. cbn [x y z]. split.
  - intros H. injection H as Hx Hy Hz.
    destruct (Req_dec_T wx 0) as [Hwx | Hwx].
    + destruct (Req_dec_T wy 0) as [Hwy | Hwy].
      * destruct (Req_dec_T wz 0) as [Hwz | Hwz].
        -- exists 0, 1. split; [ right; lra | ]. subst. f_equal; ring.
        -- exists wz, uz. split; [ left; exact Hwz | ]. f_equal; nra.
      * exists wy, uy. split; [ left; exact Hwy | ]. f_equal; nra.
    + exists wx, ux. split; [ left; exact Hwx | ]. f_equal; nra.
  - intros (s & t & Hst & H). injection H as Hx Hy Hz.
    destruct Hst as [Hs | Ht].
    + f_equal; apply (Rmult_eq_reg_l s); trivial.
      * transitivity (uy * s * wz - uz * s * wy);
          [ ring | rewrite Hy, Hz; ring ].
      * transitivity (uz * s * wx - ux * s * wz);
          [ ring | rewrite Hz, Hx; ring ].
      * transitivity (ux * s * wy - uy * s * wx);
          [ ring | rewrite Hx, Hy; ring ].
    + f_equal; apply (Rmult_eq_reg_l t); trivial.
      * transitivity (uy * (wz * t) - uz * (wy * t));
          [ ring | rewrite <- Hy, <- Hz; ring ].
      * transitivity (uz * (wx * t) - ux * (wz * t));
          [ ring | rewrite <- Hz, <- Hx; ring ].
      * transitivity (ux * (wy * t) - uy * (wx * t));
          [ ring | rewrite <- Hx, <- Hy; ring ].
Qed.

Lemma collinear_iff_zero_area (t : Plane) :
  collinear (vertex0 t) (vertex1 t) (vertex2 t) <-> face_area t = 0.
Proof.
  rewrite face_area_zero_iff, cross_zero_iff_dependent. reflexivity.
Qed.

(** The triangle (0,0,0), (1,0,0), (2,0,0) has collinear vertices: the test
    raises on it, here at the point (0,0,0). *)
Example point_in_triangle_on_a_segment :
  collinear (mkVector3 0 0 0) (mkVector3 1 0 0) (mkVector3 2 0 0)
  /\ point_in_triangle (mkVector3 0 0 0)
       (Plane_init (mkVector3 0 0 0, mkVector3 1 0 0, mkVector3 2 0 0))
     = Raise ZeroDivisionError.
Proof.
  assert (Hcol : collinear (mkVector3 0 0 0) (mkVector3 1 0 0)
                           (mkVector3 2 0 0)).
  { exists 2, 1. split; [ left; lra | vec_ring ]. }
  split; [ exact Hcol | ].
  apply point_in_triangle_degenerate.
  apply (proj1 (collinear_iff_zero_area
                  (Plane_init (mkVector3 0 0 0, mkVector3 1 0 0,
                               mkVector3 2 0 0)))).
  exact Hcol.
Qed.

(** X29: over exact reals, on a triangle with collinear vertices (zero area) the
    membership test raises ZeroDivisionError, which is neither a boolean nor a
    descriptive error; on a triangle of nonzero area it raises nothing. *)
Theorem point_in_triangle_faults_iff_degenerate (p : Vector3) (t : Plane) :
  (collinear (vertex0 t) (vertex1 t) (vertex2 t) ->
   face_area t = 0 /\ point_in_triangle p t = Raise ZeroDivisionError)
  /\ (face_area t <> 0 -> exists b : bool, point_in_triangle p t = Ok b).
Proof.
  split.
  - intros Hcol. apply collinear_iff_zero_area in Hcol.
    split; [ exact Hcol | apply point_in_triangle_degenerate, Hcol ].
  - intros HA. rewrite (point_in_triangle_regular p t HA). eauto.
Qed.

(** ** The Plane constructor *)

(** Over exact reals, swapping any two of the three vertices given to the
    Plane constructor negates the derived normal. *)
Theorem normal_negated_by_transposition (v0 v1 v2 : Vector3) :
  normal_vector (Plane_init (v1, v0, v2))
  = opp (normal_vector (Plane_init (v0, v1, v2)))
  /\ normal_vector (Plane_init (v2, v1, v0))
     = opp (normal_vector (Plane_init (v0, v1, v2)))
  /\ normal_vector (Plane_init (v0, v2, v1))
     = opp (normal_vector (Plane_init (v0, v1, v2))).
Proof.
  unfold normal_vector, Plane_init. cbn [normal_v].
  repeat split; vec_ring.
Qed.

(** ** Pyramid.faces *)

Lemma combinations_map {A B : Type} (f : A -> B) (l : list A) :
  forall r : nat,
    combinations (map f l) r = map (map f) (combinations l r).
Proof.
  induction l as [ | a l IH ]; intros [ | r ]; cbn [combinations map];
    try reflexivity.
  rewrite !IH, map_app, !map_map. reflexivity.
Qed.

Lemma combinations_length {A : Type} (l : list A) :
  forall (r : nat) (c : list A), In c (combinations l r) -> List.length c = r.
Proof.
  induction l as [ | a l IH ]; intros [ | r ] c; cbn [combinations In].
  - intros [<- | []]. reflexivity.
  - intros [].
  - intros [<- | []]. reflexivity.
  - rewrite in_app_iff, in_map_iff. intros [(c' & <- & Hc') | Hc].
    + cbn [List.length]. f_equal. apply (IH r c' Hc').
    + apply (IH (S r) c Hc).
Qed.

Lemma vertex_list_positions (pyramid : Pyramid) :
  vertex_list pyramid = map (vertex_at pyramid) [0; 1; 2; 3]%nat.
Proof. destruct pyramid as [[[[v0 v1] v2] v3]]. reflexivity. Qed.

Lemma faces_of_vertices (v0 v1 v2 v3 : Vector3) :
  faces (mkPyramid (v0, v1, v2, v3))
  = Ok [Plane_init (v0, v1, v2); Plane_init (v0, v1, v3);
        Plane_init (v0, v2, v3); Plane_init (v1, v2, v3)].
Proof. reflexivity. Qed.

Lemma faces_at_indices (pyramid : Pyramid) :
  faces pyramid = Ok (map (face_at pyramid) face_indices).
Proof. destruct pyramid as [[[[v0 v1] v2] v3]]. reflexivity. Qed.

Lemma Plane_init_constructed (vs : Vector3 * Vector3 * Vector3) :
  constructed (Plane_init vs).
Proof. destruct vs as [[v0 v1] v2]. reflexivity. Qed.

Lemma same_subset_members (i j : list nat) :
  same_subset i j ->
  forall n : nat, existsb (Nat.eqb n) i = existsb (Nat.eqb n) j.
Proof.
  intros Hs n. apply eq_true_iff_eq. rewrite !existsb_exists.
  split; intros (m & Hm & Heq); apply Nat.eqb_eq in Heq; subst m;
    exists n; (split; [ apply Hs; exact Hm | apply Nat.eqb_refl ]).
Qed.

(** C4: [faces] returns exactly 4 planes, built from the vertices at the
    positions {0,1,2}, {0,1,3}, {0,2,3}, {1,2,3} in this order, which is the
    order of [combinations]; these are all the 3-element subsets of the 4
    positions, each once. *)
Theorem faces_enumerates_the_four_subsets :
  (forall v0 v1 v2 v3 : Vector3,
      faces (mkPyramid (v0, v1, v2, v3))
      = Ok [Plane_init (v0, v1, v2); Plane_init (v0, v1, v3);
            Plane_init (v0, v2, v3); Plane_init (v1, v2, v3)])
  /\ (forall pyramid : Pyramid,
         faces pyramid = Ok (map (face_at pyramid) face_indices)
         /\ combinations (vertex_list pyramid) 3
            = map (map (vertex_at pyramid)) face_indices)
  /\ combinations [0; 1; 2; 3]%nat 3 = face_indices
  /\ List.length face_indices = 4%nat
  /\ NoDup face_indices
  /\ (forall i j : list nat,
         In i face_indices -> In j face_indices -> same_subset i j -> i = j)
  /\ (forall a b c : nat,
         (a < b)%nat /\ (b < c)%nat /\ (c < 4)%nat ->
         In [a; b; c] face_indices)
  /\ (forall i : list nat,
         In i face_indices ->
         exists a b c : nat,
           i = [a; b; c] /\ (a < b)%nat /\ (b < c)%nat /\ (c < 4)%nat).
Proof.
  split; [ exact faces_of_vertices | ].
  split.
  { intros pyramid. split; [ apply faces_at_indices | ].
    rewrite vertex_list_positions, combinations_map. reflexivity. }
  split; [ reflexivity | ].
  split; [ reflexivity | ].
  split.
  { unfold face_indices.
    repeat (constructor; [ cbn [In]; intuition discriminate | ]).
    constructor. }
  split.
  { intros i j Hi Hj Hs. unfold face_indices in Hi, Hj. cbn [In] in Hi, Hj.
    pose proof (same_subset_members _ _ Hs) as Hm.
    destruct Hi as [<- | [<- | [<- | [<- | []]]]];
      destruct Hj as [<- | [<- | [<- | [<- | []]]]];
      try reflexivity; exfalso;
      solve [ pose proof (Hm 0%nat) as H; cbn in H; discriminate
            | pose proof (Hm 1%nat) as H; cbn in H; discriminate
            | pose proof (Hm 2%nat) as H; cbn in H; discriminate
            | pose proof (Hm 3%nat) as H; cbn in H; discriminate ]. }
  split.
  { intros a b c (Hab & Hbc & Hc). unfold face_indices.
    destruct c as [ | [ | [ | [ | c ] ] ] ]; try lia;
      destruct b as [ | [ | [ | b ] ] ]; try lia;
      destruct a as [ | [ | [ | a ] ] ]; try lia;
      cbn [In]; tauto. }
  { intros i Hi. unfold face_indices in Hi. cbn [In] in Hi.
    destruct Hi as [<- | [<- | [<- | [<- | []]]]];
      do 3 eexists; (split; [ reflexivity | lia ]). }
Qed.

(** ** The query *)

(** The area of a face left by the constructor is half the norm of its
    normal. *)
Lemma constructed_area (plane : Plane) :
  constructed plane -> face_area plane = norm (normal_vector plane) / 2.
Proof.
  intros Hc. unfold constructed in Hc.
  destruct plane as [[[v0 v1] v2] n]. unfold Plane_init in Hc.
  injection Hc as ->. reflexivity.
Qed.

(** When the solver returns a point for such a face, the face has nonzero
    area: a zero normal would have fired the first tolerance check. *)
Lemma solver_some_area (line : Line) (plane : Plane) (p : Vector3) :
  constructed plane ->
  line_plane_intersection_point line plane = Ok (Some p) ->
  face_area plane <> 0.
Proof.
  intros Hc Hp HA. apply solver_some_inv in Hp as [Hno _].
  rewrite (constructed_area _ Hc) in HA.
  assert (Hn : normal_vector plane = zero) by (apply norm_zero_iff; lra).
  apply Hno. left. rewrite Hn, dot_product_zero_r, Rabs_R0.
  exact EPSILON_pos.
Qed.

(** The loop returns a boolean when each face is either as the constructor
    left it or of nonzero area. *)
Lemma scan_faces_total (line : Line) (fs : list Plane) :
  Forall (fun face => constructed face \/ face_area face <> 0) fs ->
  exists b : bool, scan_faces line fs = Ok b.
Proof.
  induction 1 as [ | face rest Hface _ IH ]; cbn [scan_faces].
  - eauto.
  - destruct (solver_total line face) as [[p | ] Hp]; rewrite Hp; cbn [bind].
    + assert (HA : face_area face <> 0).
      { destruct Hface as [Hc | HA]; [ | exact HA ].
        exact (solver_some_area _ _ _ Hc Hp). }
      rewrite (point_in_triangle_regular p face HA). cbn [bind].
      destruct (_ && _); [ eauto | exact IH ].
    + exact IH.
Qed.

Lemma accepts_dec (line : Line) (face : Plane) :
  accepts line face \/ ~ accepts line face.
Proof.
  unfold accepts.
  destruct (solver_total line face) as [[p | ] Hp].
  - destruct (point_in_triangle p face) as [[ | ] | e] eqn:Hin.
    + left. eauto.
    + right. intros (q & Hq & Hq'). congruence.
    + right. intros (q & Hq & Hq'). congruence.
  - right. intros (q & Hq & _). congruence.
Qed.

(** The loop stops with true at an accepting face, whatever comes after. *)
Lemma scan_faces_accepting_head (line : Line) (face : Plane)
      (later : list Plane) :
  accepts line face -> scan_faces line (face :: later) = Ok true.
Proof.
  intros (p & Hp & Hin). cbn [scan_faces]. rewrite Hp. cbn [bind].
  rewrite Hin. reflexivity.
Qed.

(** The loop moves on from a face that neither accepts nor raises. *)
Lemma scan_faces_rejecting_head (line : Line) (face : Plane)
      (rest : list Plane) :
  constructed face \/ face_area face <> 0 ->
  ~ accepts line face ->
  scan_faces line (face :: rest) = scan_faces line rest.
Proof.
  intros Hface Hrej. cbn [scan_faces].
  destruct (solver_total line face) as [[p | ] Hp]; rewrite Hp; cbn [bind];
    [ | reflexivity ].
  assert (HA : face_area face <> 0).
  { destruct Hface as [Hc | HA]; [ | exact HA ].
    exact (solver_some_area _ _ _ Hc Hp). }
  destruct (point_in_triangle p face) as [[ | ] | e] eqn:Hin; cbn [bind].
  - exfalso. apply Hrej. exists p. split; assumption.
  - reflexivity.
  - rewrite (point_in_triangle_regular p face HA) in Hin. discriminate.
Qed.

Lemma scan_faces_first_accepting (line : Line) (pre : list Plane) :
  forall (face : Plane) (later : list Plane),
    Forall (fun f => constructed f \/ face_area f <> 0) pre ->
    ~ Exists (accepts line) pre ->
    accepts line face ->
    scan_faces line (pre ++ face :: later) = Ok true.
Proof.
  induction pre as [ | f pre IH ]; intros face later Hpre Hnone Hacc.
  - apply scan_faces_accepting_head, Hacc.
  - inversion Hpre as [ | ? ? Hf Hpre' ]; subst.
    cbn [app]. rewrite scan_faces_rejecting_head.
    + apply IH; [ exact Hpre' | | exact Hacc ].
      intros H. apply Hnone. right. exact H.
    + exact Hf.
    + intros H. apply Hnone. left. exact H.
Qed.

Lemma scan_faces_true_iff (line : Line) (fs : list Plane) :
  Forall (fun f => constructed f \/ face_area f <> 0) fs ->
  (scan_faces line fs = Ok true <-> Exists (accepts line) fs).
Proof.
  induction 1 as [ | face rest Hface _ IH ].
  - cbn [scan_faces]. split; [ discriminate | ].
    intros H. inversion H.
  - destruct (accepts_dec line face) as [Hacc | Hrej].
    + rewrite (scan_faces_accepting_head _ _ _ Hacc).
      split; [ intros _; left; exact Hacc | reflexivity ].
    + rewrite (scan_faces_rejecting_head _ _ _ Hface Hrej), IH.
      split; [ intros H; right; exact H | ].
      intros H. inversion H; subst; [ contradiction | assumption ].
Qed.

Lemma query_scans_faces_in_order (line : Line) (pyramid : Pyramid) :
  line_intersection_with_pyramid line pyramid
  = scan_faces line (faces_in_order pyramid).
Proof.
  unfold line_intersection_with_pyramid. rewrite faces_at_indices.
  reflexivity.
Qed.

Lemma faces_in_order_constructed (pyramid : Pyramid) :
  Forall (fun f => constructed f \/ face_area f <> 0)
         (faces_in_order pyramid).
Proof.
  apply Forall_forall. intros face Hface. left.
  apply in_map_iff in Hface as (idx & <- & _).
  apply Plane_init_constructed.
Qed.

(** X27: over exact reals, the query returns true exactly when one of the 4
    faces, taken in the order of section 4.3, yields an intersection point that
    the membership test accepts; it returns true at the first such face whatever
    the later faces are, and false when no face accepts. *)
Theorem query_true_iff_some_face_accepts (line : Line) (pyramid : Pyramid) :
  faces pyramid = Ok (faces_in_order pyramid)
  /\ line_intersection_with_pyramid line pyramid
     = scan_faces line (faces_in_order pyramid)
  /\ (line_intersection_with_pyramid line pyramid = Ok true
      <-> Exists (accepts line) (faces_in_order pyramid))
  /\ (line_intersection_with_pyramid line pyramid = Ok false
      <-> ~ Exists (accepts line) (faces_in_order pyramid))
  /\ (forall (pre : list Plane) (face : Plane) (post : list Plane),
         faces_in_order pyramid = pre ++ face :: post ->
         ~ Exists (accepts line) pre ->
         accepts line face ->
         forall later : list Plane,
           scan_faces line (pre ++ face :: later) = Ok true).
Proof.
  pose proof (faces_in_order_constructed pyramid) as Hfs.
  pose proof (scan_faces_true_iff line _ Hfs) as Htrue.
  destruct (scan_faces_total line _ Hfs) as [b Hb].
  rewrite query_scans_faces_in_order.
  split; [ apply faces_at_indices | ].
  split; [ reflexivity | ].
  split; [ exact Htrue | ].
  split.
  - rewrite <- Htrue, Hb. destruct b; split; congruence.
  - intros pre face post Heq Hnone Hacc later.
    apply scan_faces_first_accepting; [ | exact Hnone | exact Hacc ].
    rewrite Heq in Hfs. apply Forall_app in Hfs as [Hpre _]. exact Hpre.
Qed.

Lemma non_degenerate_face_area (pyramid : Pyramid) (face : Plane) :
  non_degenerate pyramid ->
  In face (faces_in_order pyramid) ->
  face_area face <> 0.
Proof.
  intros Hnd Hface HA.
  apply in_map_iff in Hface as (idx & <- & Hidx).
  apply collinear_iff_zero_area in HA. revert HA.
  apply Hnd.
  rewrite vertex_list_positions, combinations_map.
  apply in_map_iff. exists idx. split; [ | exact Hidx ].
  unfold face_indices in Hidx. cbn [In] in Hidx.
  destruct Hidx as [<- | [<- | [<- | [<- | []]]]]; reflexivity.
Qed.

(** X30: over exact reals, on a pyramid whose 3-element vertex subsets are all
    non-collinear the query evaluates to a boolean; the solver raises on no
    face, every face has nonzero area, and the membership test raises on no face
    for which the solver returned a point. *)
Theorem query_raises_nothing_on_non_degenerate
        (line : Line) (pyramid : Pyramid) :
  non_degenerate pyramid ->
  (exists b : bool, line_intersection_with_pyramid line pyramid = Ok b)
  /\ (forall face : Plane,
         In face (faces_in_order pyramid) ->
         exists r : option Vector3,
           line_plane_intersection_point line face = Ok r)
  /\ (forall (face : Plane) (p : Vector3),
         In face (faces_in_order pyramid) ->
         line_plane_intersection_point line face = Ok (Some p) ->
         face_area face <> 0
         /\ exists b : bool, point_in_triangle p face = Ok b).
Proof.
  intros Hnd.
  assert (Harea : Forall (fun f => constructed f \/ face_area f <> 0)
                         (faces_in_order pyramid)).
  { apply Forall_forall. intros face Hface. right.
    exact (non_degenerate_face_area pyramid face Hnd Hface). }
  split; [ | split ].
  - rewrite query_scans_faces_in_order. apply scan_faces_total, Harea.
  - intros face _. apply solver_total.
  - intros face p Hface _.
    pose proof (non_degenerate_face_area pyramid face Hnd Hface) as HA.
    split; [ exact HA | ].
    rewrite (point_in_triangle_regular p face HA). eauto.
Qed.

(** ** The two runs of the [__main__] block *)

Ltac unfold_inputs :=
  unfold no_intersection, solver_d, face_area, area_ratio, area, norm,
    dot_product, main_line, line_behind, plane_z0;
  cbn [x y z cross_product sub add mul vertex0 vertex1 vertex2
       plane_vertices normal_vector normal_v Plane_init fst snd
       point1 direction direction_vector].

(** One of the tolerance checks fires because its dot product is 0. *)
Ltac tolerance_fires :=
  unfold_inputs;
  first [ left; match goal with |- Rabs ?e < _ => replace e with 0 by ring end
        | right; match goal with |- Rabs ?e < _ => replace e with 0 by ring end ];
  rewrite Rabs_R0; exact EPSILON_pos.

(** Both tolerance checks pass. *)
Ltac tolerance_passes :=
  unfold_inputs; unfold EPSILON;
  intros [H | H]; apply Rabs_def2 in H; lra.

Lemma scan_faces_no_intersection (line : Line) (face : Plane)
      (rest : list Plane) :
  no_intersection line face ->
  scan_faces line (face :: rest) = scan_faces line rest.
Proof.
  intros Hno. cbn [scan_faces]. rewrite (solver_none _ _ Hno). reflexivity.
Qed.

Lemma scan_faces_outside (line : Line) (face : Plane) (p : Vector3)
      (rest : list Plane) :
  line_plane_intersection_point line face = Ok (Some p) ->
  point_in_triangle p face = Ok false ->
  scan_faces line (face :: rest) = scan_faces line rest.
Proof.
  intros Hp Hout. cbn [scan_faces]. rewrite Hp. cbn [bind].
  rewrite Hout. reflexivity.
Qed.

Lemma sqrt3_pos : 0 < sqrt 3.
Proof. apply sqrt_lt_R0. lra. Qed.

Lemma main_faces :
  faces_in_order main_pyramid
  = [Plane_init (mkVector3 0 0 0, mkVector3 1 0 0, mkVector3 0 1 0);
     Plane_init (mkVector3 0 0 0, mkVector3 1 0 0, mkVector3 1 1 1);
     Plane_init (mkVector3 0 0 0, mkVector3 0 1 0, mkVector3 1 1 1);
     Plane_init (mkVector3 1 0 0, mkVector3 0 1 0, mkVector3 1 1 1)].
Proof. reflexivity. Qed.

Lemma main_faces2 :
  faces_in_order main_pyramid2
  = [Plane_init (mkVector3 0 0 0, mkVector3 1 0 0, mkVector3 0 1 0);
     Plane_init (mkVector3 0 0 0, mkVector3 1 0 0, mkVector3 0 0 (-1));
     Plane_init (mkVector3 0 0 0, mkVector3 0 1 0, mkVector3 0 0 (-1));
     Plane_init (mkVector3 1 0 0, mkVector3 0 1 0, mkVector3 0 0 (-1))].
Proof. reflexivity. Qed.

(** The last face of the first pyramid: the solver returns (1,1,1), a vertex
    of the face, with ratios 0, 0 and 1. *)
Lemma main_last_face_point :
  line_plane_intersection_point main_line
    (Plane_init (mkVector3 1 0 0, mkVector3 0 1 0, mkVector3 1 1 1))
  = Ok (Some (mkVector3 1 1 1)).
Proof.
  rewrite solver_some by tolerance_passes.
  do 2 f_equal. apply vector_eq; unfold_inputs; field; lra.
Qed.

Lemma main_last_face_area :
  face_area (Plane_init (mkVector3 1 0 0, mkVector3 0 1 0, mkVector3 1 1 1))
  = sqrt 3 / 2.
Proof. unfold_inputs. do 2 f_equal. ring. Qed.

Lemma main_last_face_inside :
  point_in_triangle (mkVector3 1 1 1)
    (Plane_init (mkVector3 1 0 0, mkVector3 0 1 0, mkVector3 1 1 1))
  = Ok true.
Proof.
  pose proof sqrt3_pos as H3.
  rewrite point_in_triangle_regular
    by (rewrite main_last_face_area; lra).
  f_equal. apply ratio_checks_true.
  unfold area_ratio. rewrite main_last_face_area.
  cbn [vertex0 vertex1 vertex2 plane_vertices Plane_init fst snd].
  assert (H1 : area (mkVector3 1 1 1) (mkVector3 0 1 0) (mkVector3 1 1 1)
               = 0).
  { unfold_inputs. replace (_ + _ + _) with 0 by ring. rewrite sqrt_0. lra. }
  assert (H2 : area (mkVector3 1 1 1) (mkVector3 1 1 1) (mkVector3 1 0 0)
               = 0).
  { unfold_inputs. replace (_ + _ + _) with 0 by ring. rewrite sqrt_0. lra. }
  assert (H3' : area (mkVector3 1 1 1) (mkVector3 1 0 0) (mkVector3 0 1 0)
                = sqrt 3 / 2).
  { unfold_inputs. do 2 f_equal. ring. }
  rewrite H1, H2, H3'.
  replace (0 / (sqrt 3 / 2)) with 0 by (field; lra).
  replace (sqrt 3 / 2 / (sqrt 3 / 2)) with 1 by (field; lra).
  unfold EPSILON. lra.
Qed.

(** The last face of the second pyramid: the solver returns (1,1,1), which
    is outside the face, with ratios 1, 1 and 1. *)
Lemma main2_last_face_point :
  line_plane_intersection_point main_line
    (Plane_init (mkVector3 1 0 0, mkVector3 0 1 0, mkVector3 0 0 (-1)))
  = Ok (Some (mkVector3 1 1 1)).
Proof.
  rewrite solver_some by tolerance_passes.
  do 2 f_equal. apply vector_eq; unfold_inputs; field; lra.
Qed.

Lemma main2_last_face_area :
  face_area (Plane_init (mkVector3 1 0 0, mkVector3 0 1 0,
                         mkVector3 0 0 (-1)))
  = sqrt 3 / 2.
Proof. unfold_inputs. do 2 f_equal. ring. Qed.

Lemma main2_last_face_outside :
  point_in_triangle (mkVector3 1 1 1)
    (Plane_init (mkVector3 1 0 0, mkVector3 0 1 0, mkVector3 0 0 (-1)))
  = Ok false.
Proof.
  pose proof sqrt3_pos as H3.
  rewrite point_in_triangle_regular
    by (rewrite main2_last_face_area; lra).
  f_equal. apply not_true_is_false. rewrite ratio_checks_true.
  unfold area_ratio. rewrite main2_last_face_area.
  cbn [vertex0 vertex1 vertex2 plane_vertices Plane_init fst snd].
  assert (H1 : area (mkVector3 1 1 1) (mkVector3 0 1 0) (mkVector3 0 0 (-1))
               = sqrt 3 / 2).
  { unfold_inputs. do 2 f_equal. ring. }
  assert (H2 : area (mkVector3 1 1 1) (mkVector3 0 0 (-1)) (mkVector3 1 0 0)
               = sqrt 3 / 2).
  { unfold_inputs. do 2 f_equal. ring. }
  assert (H3' : area (mkVector3 1 1 1) (mkVector3 1 0 0) (mkVector3 0 1 0)
                = sqrt 3 / 2).
  { unfold_inputs. do 2 f_equal. ring. }
  rewrite H1, H2, H3'.
  replace (sqrt 3 / 2 / (sqrt 3 / 2)) with 1 by (field; lra).
  unfold EPSILON. lra.
Qed.

(** C6: with the line through (0,0,0) along (1,1,1), the query returns true
    for the pyramid (0,0,0), (1,0,0), (0,1,0), (1,1,1) and false for the
    pyramid (0,0,0), (1,0,0), (0,1,0), (0,0,-1). *)
Theorem main_block_results :
  line_intersection_with_pyramid main_line main_pyramid = Ok true
  /\ line_intersection_with_pyramid main_line main_pyramid2 = Ok false.
Proof.
  rewrite !query_scans_faces_in_order, main_faces, main_faces2. split.
  - rewrite !scan_faces_no_intersection by tolerance_fires.
    apply scan_faces_accepting_head.
    exists (mkVector3 1 1 1).
    split; [ exact main_last_face_point | exact main_last_face_inside ].
  - rewrite !scan_faces_no_intersection by tolerance_fires.
    rewrite (scan_faces_outside _ _ _ _ main2_last_face_point
                                main2_last_face_outside).
    reflexivity.
Qed.

(** ** Instances of the theorems that carry a hypothesis *)

Lemma main_pyramid_non_degenerate : non_degenerate main_pyramid.
Proof.
  intros a b c Hin Hcol.
  apply (proj2 (cross_zero_iff_dependent _ _)) in Hcol.
  cbv [combinations vertex_list main_pyramid pyramid_vertices map app]
    in Hin.
  cbn [In] in Hin. revert Hcol.
  destruct Hin as [H | [H | [H | [H | []]]]]; injection H as <- <- <-;
    unfold zero; unfold_inputs; intros Hcol; injection Hcol; intros; lra.
Qed.

Lemma point_in_triangle_iff_ratio_checks_witness :
  face_area (Plane_init (mkVector3 1 0 0, mkVector3 0 1 0, mkVector3 1 1 1))
  <> 0
  /\ (0 <= area_ratio (mkVector3 1 1 1) (mkVector3 0 1 0) (mkVector3 1 1 1)
             (Plane_init (mkVector3 1 0 0, mkVector3 0 1 0, mkVector3 1 1 1))
       <= 1)
  /\ (0 <= area_ratio (mkVector3 1 1 1) (mkVector3 1 1 1) (mkVector3 1 0 0)
             (Plane_init (mkVector3 1 0 0, mkVector3 0 1 0, mkVector3 1 1 1))
       <= 1)
  /\ (0 <= area_ratio (mkVector3 1 1 1) (mkVector3 1 0 0) (mkVector3 0 1 0)
             (Plane_init (mkVector3 1 0 0, mkVector3 0 1 0, mkVector3 1 1 1))
       <= 1)
  /\ area_ratio (mkVector3 1 1 1) (mkVector3 0 1 0) (mkVector3 1 1 1)
       (Plane_init (mkVector3 1 0 0, mkVector3 0 1 0, mkVector3 1 1 1))
     + area_ratio (mkVector3 1 1 1) (mkVector3 1 1 1) (mkVector3 1 0 0)
         (Plane_init (mkVector3 1 0 0, mkVector3 0 1 0, mkVector3 1 1 1))
     + area_ratio (mkVector3 1 1 1) (mkVector3 1 0 0) (mkVector3 0 1 0)
         (Plane_init (mkVector3 1 0 0, mkVector3 0 1 0, mkVector3 1 1 1))
     - 1 < EPSILON.
Proof.
  assert (HA : face_area (Plane_init (mkVector3 1 0 0, mkVector3 0 1 0,
                                      mkVector3 1 1 1)) <> 0).
  { rewrite main_last_face_area. pose proof sqrt3_pos. lra. }
  split; [ exact HA | ].
  exact (proj1 (proj1 (point_in_triangle_iff_ratio_checks
                         (mkVector3 1 1 1)
                         (Plane_init (mkVector3 1 0 0, mkVector3 0 1 0,
                                      mkVector3 1 1 1)) HA))
               main_last_face_inside).
Defined.

Lemma query_raises_nothing_on_non_degenerate_witness :
  non_degenerate main_pyramid
  /\ exists b : bool,
       line_intersection_with_pyramid main_line main_pyramid = Ok b.
Proof.
  split; [ exact main_pyramid_non_degenerate | ].
  exact (proj1 (query_raises_nothing_on_non_degenerate
                  main_line main_pyramid main_pyramid_non_degenerate)).
Defined.

(** * Further properties of q2.py *)

(** ** Vector3 *)

(** X1: the dot product is symmetric and linear in its first argument. *)
Theorem dot_product_symmetric_bilinear (a b c : Vector3) (k : R) :
  dot_product a b = dot_product b a
  /\ dot_product (a * k) b = k * dot_product a b
  /\ dot_product (a + b) c = dot_product a c + dot_product b c
  /\ dot_product (a - b) c = dot_product a c - dot_product b c.
Proof.
  unfold dot_product. cbn [x y z add sub mul]. repeat split; ring.
Qed.

(** X2: the cross product is anticommutative, vanishes on equal operands
    and is orthogonal to both operands. *)
Theorem cross_product_orthogonal (a b : Vector3) :
  cross_product a b = opp (cross_product b a)
  /\ cross_product a a = zero
  /\ dot_product a (cross_product a b) = 0
  /\ dot_product b (cross_product a b) = 0.
Proof.
  split; [ vec_ring | split; [ vec_ring | ] ].
  unfold dot_product. cbn [x y z cross_product]. split; ring.
Qed.

Lemma norm_scale (v : Vector3) (k : R) : norm (v * k) = Rabs k * norm v.
Proof.
  unfold norm. cbn [x y z mul].
  replace ((x v * k) ^ 2 + (y v * k) ^ 2 + (z v * k) ^ 2)
    with (Rsqr k * (x v ^ 2 + y v ^ 2 + z v ^ 2))
    by (unfold Rsqr; ring).
  rewrite sqrt_mult;
    [ | apply Rle_0_sqr | apply sum_squares_nonneg ].
  rewrite sqrt_Rsqr_abs. reflexivity.
Qed.

Lemma norm_opp (v : Vector3) : norm (opp v) = norm v.
Proof.
  unfold norm. cbn [x y z opp]. f_equal. ring.
Qed.

(** X3: over exact reals, [magnitude] never raises; its value is nonnegative, is
    zero only for the zero vector, and scales with the absolute value of a
    factor. *)
Theorem magnitude_total_nonneg_homogeneous (v : Vector3) (k : R) :
  exists m : R,
    magnitude v = Ok m
    /\ 0 <= m
    /\ (m = 0 <-> v = zero)
    /\ m * m = dot_product v v
    /\ magnitude (v * k) = Ok (Rabs k * m).
Proof.
  exists (norm v). split; [ apply magnitude_norm | ].
  split; [ apply sqrt_pos | ].
  split; [ apply norm_zero_iff | ].
  split.
  - unfold norm, dot_product. rewrite sqrt_sqrt; [ ring | ].
    apply sum_squares_nonneg.
  - rewrite magnitude_norm, norm_scale. reflexivity.
Qed.

(** X4: Lagrange's identity between [magnitude], [dot_product] and
    [cross_product]: |a x b|^2 = |a|^2 |b|^2 - (a . b)^2. *)
Theorem magnitude_cross_product_lagrange (a b : Vector3) :
  exists ma mb mc : R,
    magnitude a = Ok ma /\ magnitude b = Ok mb
    /\ magnitude (cross_product a b) = Ok mc
    /\ mc ^ 2 = ma ^ 2 * mb ^ 2 - dot_product a b ^ 2.
Proof.
  exists (norm a), (norm b), (norm (cross_product a b)).
  rewrite !magnitude_norm. repeat split.
  unfold norm. rewrite !pow2_sqrt by apply sum_squares_nonneg.
  unfold dot_product. cbn [x y z cross_product]. ring.
Qed.

(** X5: subtraction undoes addition, a vector minus itself is the zero
    vector, and scaling distributes over addition and composes. *)
Theorem vector_add_sub_mul_laws (a b : Vector3) (k l : R) :
  (a + b - b)%vec = a
  /\ (a + (b - a))%vec = b
  /\ (a - a)%vec = zero
  /\ (a + b)%vec = (b + a)%vec
  /\ ((a + b) * k)%vec = (a * k + b * k)%vec
  /\ (a * k * l)%vec = (a * (k * l))%vec
  /\ (a * 1)%vec = a
  /\ (a * 0)%vec = zero.
Proof. repeat split; vec_ring. Qed.

(** ** Plane *)

(** X6: over exact reals, the constructor keeps the three vertices in order; its
    normal is orthogonal to both edges out of the first vertex, so each vertex
    satisfies the plane equation; the normal is the zero vector exactly when the
    vertices are collinear. *)
Theorem Plane_init_normal (v0 v1 v2 : Vector3) :
  plane_vertices (Plane_init (v0, v1, v2)) = (v0, v1, v2)
  /\ dot_product (v1 - v0) (normal_vector (Plane_init (v0, v1, v2))) = 0
  /\ dot_product (v2 - v0) (normal_vector (Plane_init (v0, v1, v2))) = 0
  /\ on_plane v0 (Plane_init (v0, v1, v2))
  /\ on_plane v1 (Plane_init (v0, v1, v2))
  /\ on_plane v2 (Plane_init (v0, v1, v2))
  /\ (normal_vector (Plane_init (v0, v1, v2)) = zero
      <-> collinear v0 v1 v2).
Proof.
  split; [ reflexivity | ].
  unfold on_plane, normal_vector, dot_product.
  cbn [x y z cross_product sub vertex0 plane_vertices normal_v Plane_init
       fst snd].
  repeat (split; [ ring | ]).
  apply cross_zero_iff_dependent.
Qed.

(** ** The solver, further *)

Lemma solver_some_den (line : Line) (plane : Plane) (p : Vector3) :
  line_plane_intersection_point line plane = Ok (Some p) ->
  dot_product (direction_vector line) (normal_vector plane) <> 0
  /\ dot_product (vertex0 plane - point1 line) (normal_vector plane) <> 0.
Proof.
  intros Hp. apply solver_some_inv in Hp as [Hno _].
  unfold no_intersection in Hno.
  split; apply solver_guard_nonzero; tauto.
Qed.

(** X7: over exact reals, the point returned by the solver is the only point of
    the line that satisfies the plane equation. *)
Theorem solver_point_unique
        (line : Line) (plane : Plane) (p : Vector3) (d' : R) :
  line_plane_intersection_point line plane = Ok (Some p) ->
  on_plane (point1 line + direction_vector line * d')%vec plane ->
  (point1 line + direction_vector line * d')%vec = p.
Proof.
  intros Hp Hon.
  destruct (solver_some_den _ _ _ Hp) as [Hden _].
  apply solver_some_inv in Hp as [_ ->].
  assert (Hd : d' = solver_d line plane).
  { unfold solver_d. apply (Rmult_eq_reg_r
      (dot_product (direction_vector line) (normal_vector plane)));
      [ | exact Hden ].
    unfold Rdiv. rewrite Rmult_assoc, Rinv_l, Rmult_1_r by exact Hden.
    revert Hon. unfold on_plane, dot_product.
    cbn [x y z sub add mul]. intros Hon. lra. }
  rewrite Hd. reflexivity.
Qed.

Lemma solver_point_unique_witness :
  line_plane_intersection_point line_behind plane_z0
  = Ok (Some (mkVector3 0 0 0))
  /\ on_plane (point1 line_behind
               + direction_vector line_behind * (-1))%vec plane_z0
  /\ (point1 line_behind + direction_vector line_behind * (-1))%vec
     = mkVector3 0 0 0.
Proof.
  assert (H : line_plane_intersection_point line_behind plane_z0
              = Ok (Some (mkVector3 0 0 0))).
  { rewrite (solver_some _ _ line_behind_checks), line_behind_d.
    do 2 f_equal. apply vector_eq; simpl; ring. }
  assert (Hon : on_plane (point1 line_behind
                          + direction_vector line_behind * (-1))%vec
                         plane_z0).
  { unfold on_plane, dot_product. simpl. ring. }
  split; [ exact H | split; [ exact Hon | ] ].
  exact (solver_point_unique line_behind plane_z0 (mkVector3 0 0 0) (-1)
                             H Hon).
Defined.

(** X8: over exact reals, the solver never returns the origin point of the line:
    a returned point has a nonzero parameter [d] along a nonzero direction. *)
Theorem solver_point_not_origin (line : Line) (plane : Plane) (p : Vector3) :
  line_plane_intersection_point line plane = Ok (Some p) ->
  solver_d line plane <> 0
  /\ direction_vector line <> zero
  /\ p <> point1 line.
Proof.
  intros Hp. destruct (solver_some_den _ _ _ Hp) as [Hden Hnum].
  apply solver_some_inv in Hp as [_ ->].
  assert (Hd : solver_d line plane <> 0).
  { unfold solver_d. intros H0. apply Hnum.
    apply (Rmult_eq_compat_r
             (dot_product (direction_vector line) (normal_vector plane)))
      in H0.
    unfold Rdiv in H0.
    rewrite Rmult_assoc, Rinv_l, Rmult_1_r, Rmult_0_l in H0 by exact Hden.
    exact H0. }
  assert (Hdir : direction_vector line <> zero).
  { intros H0. apply Hden. rewrite H0. unfold dot_product.
    cbn [x y z zero]. ring. }
  split; [ exact Hd | split; [ exact Hdir | ] ].
  intros Heq. apply Hdir.
  destruct (direction_vector line) as [dx dy dz].
  destruct (point1 line) as [px py pz].
  unfold add, mul in Heq. cbn [x y z] in Heq.
  injection Heq as Hx Hy Hz. unfold zero.
  f_equal; apply (Rmult_eq_reg_r (solver_d line plane)); trivial; lra.
Qed.

Lemma solver_point_not_origin_witness :
  line_plane_intersection_point line_behind plane_z0
  = Ok (Some (mkVector3 0 0 0))
  /\ mkVector3 0 0 0 <> point1 line_behind.
Proof.
  assert (H : line_plane_intersection_point line_behind plane_z0
              = Ok (Some (mkVector3 0 0 0))).
  { rewrite (solver_some _ _ line_behind_checks), line_behind_d.
    do 2 f_equal. apply vector_eq; simpl; ring. }
  split; [ exact H | ].
  exact (proj2 (proj2 (solver_point_not_origin line_behind plane_z0
                                               (mkVector3 0 0 0) H))).
Defined.

Lemma reverse_line_no_intersection (line : Line) (plane : Plane) :
  no_intersection (reverse_line line) plane <-> no_intersection line plane.
Proof.
  unfold no_intersection, reverse_line, direction_vector.
  cbn [point1 direction].
  replace (dot_product (opp (direction line)) (normal_vector plane))
    with (- dot_product (direction line) (normal_vector plane))
    by (unfold dot_product; cbn [x y z opp]; ring).
  rewrite Rabs_Ropp. reflexivity.
Qed.

(** Negating the direction vector changes neither the outcome of the solver
    nor the returned point. *)
Lemma solver_reverse_line (line : Line) (plane : Plane) :
  line_plane_intersection_point (reverse_line line) plane
  = line_plane_intersection_point line plane.
Proof.
  destruct (no_intersection_dec line plane) as [Hno | Hno].
  - rewrite (solver_none line plane Hno).
    apply solver_none, reverse_line_no_intersection, Hno.
  - rewrite (solver_some line plane Hno).
    rewrite solver_some
      by (rewrite reverse_line_no_intersection; exact Hno).
    assert (Hden : dot_product (direction_vector line) (normal_vector plane)
                   <> 0).
    { apply solver_guard_nonzero. unfold no_intersection in Hno. tauto. }
    do 2 f_equal. revert Hden.
    unfold solver_d, reverse_line, direction_vector, dot_product.
    cbn [point1 direction x y z opp sub]. intros Hden.
    apply vector_eq; cbn [x y z add mul opp]; field; lra.
Qed.

(** X10: over exact reals, on a face whose vertices are collinear the
    constructor's normal is zero, and the solver returns None for every line. *)
Theorem solver_none_on_degenerate_face
        (line : Line) (v0 v1 v2 : Vector3) :
  collinear v0 v1 v2 ->
  line_plane_intersection_point line (Plane_init (v0, v1, v2)) = Ok None.
Proof.
  intros Hcol. apply solver_none. left.
  apply (proj2 (cross_zero_iff_dependent _ _)) in Hcol.
  unfold normal_vector, Plane_init. cbn [normal_v].
  rewrite Hcol, dot_product_zero_r, Rabs_R0. exact EPSILON_pos.
Qed.

Lemma solver_none_on_degenerate_face_witness :
  collinear (mkVector3 0 0 0) (mkVector3 1 0 0) (mkVector3 2 0 0)
  /\ line_plane_intersection_point main_line
       (Plane_init (mkVector3 0 0 0, mkVector3 1 0 0, mkVector3 2 0 0))
     = Ok None.
Proof.
  assert (Hcol : collinear (mkVector3 0 0 0) (mkVector3 1 0 0)
                           (mkVector3 2 0 0)).
  { exists 2, 1. split; [ left; lra | vec_ring ]. }
  split; [ exact Hcol | ].
  exact (solver_none_on_degenerate_face main_line _ _ _ Hcol).
Defined.

(** ** The membership test, further *)

(** The sub-triangle areas at a point of the plane of the triangle. *)
Lemma area_edge_point (a b c : Vector3) (s u : R) :
  area (edge_point a b c s u) b c = Rabs (1 - s - u) * area a b c
  /\ area (edge_point a b c s u) c a = Rabs s * area a b c
  /\ area (edge_point a b c s u) a b = Rabs u * area a b c.
Proof.
  unfold area, edge_point.
  replace (cross_product (b - (a + (b - a) * s + (c - a) * u))
                         (c - (a + (b - a) * s + (c - a) * u)))
    with (cross_product (b - a) (c - a) * (1 - s - u))%vec by vec_ring.
  replace (cross_product (c - (a + (b - a) * s + (c - a) * u))
                         (a - (a + (b - a) * s + (c - a) * u)))
    with (cross_product (b - a) (c - a) * s)%vec by vec_ring.
  replace (cross_product (a - (a + (b - a) * s + (c - a) * u))
                         (b - (a + (b - a) * s + (c - a) * u)))
    with (cross_product (b - a) (c - a) * u)%vec by vec_ring.
  rewrite !norm_scale. repeat split; field.
Qed.

Lemma area_ratio_edge_point (t : Plane) (s u : R) :
  face_area t <> 0 ->
  area_ratio (edge_point (vertex0 t) (vertex1 t) (vertex2 t) s u)
             (vertex1 t) (vertex2 t) t = Rabs (1 - s - u)
  /\ area_ratio (edge_point (vertex0 t) (vertex1 t) (vertex2 t) s u)
                (vertex2 t) (vertex0 t) t = Rabs s
  /\ area_ratio (edge_point (vertex0 t) (vertex1 t) (vertex2 t) s u)
                (vertex0 t) (vertex1 t) t = Rabs u.
Proof.
  intros HA. unfold area_ratio.
  destruct (area_edge_point (vertex0 t) (vertex1 t) (vertex2 t) s u)
    as (-> & -> & ->).
  fold (face_area t). repeat split; field; exact HA.
Qed.

(** X11: over exact reals, at the point [v0 + s (v1 - v0) + u (v2 - v0)] of the
    plane of a triangle of nonzero area, the three ratios are |1 - s - u|, |s|
    and |u|, and the test returns true exactly when each is at most 1 and their
    sum exceeds 1 by less than EPSILON. *)
Theorem point_in_triangle_barycentric (t : Plane) (s u : R) :
  face_area t <> 0 ->
  (point_in_triangle
     (edge_point (vertex0 t) (vertex1 t) (vertex2 t) s u) t = Ok true
   <-> Rabs (1 - s - u) <= 1 /\ Rabs s <= 1 /\ Rabs u <= 1
       /\ Rabs (1 - s - u) + Rabs s + Rabs u - 1 < EPSILON)
  /\ (point_in_triangle
        (edge_point (vertex0 t) (vertex1 t) (vertex2 t) s u) t = Ok false
      <-> ~ (Rabs (1 - s - u) <= 1 /\ Rabs s <= 1 /\ Rabs u <= 1
             /\ Rabs (1 - s - u) + Rabs s + Rabs u - 1 < EPSILON)).
Proof.
  intros HA. rewrite (point_in_triangle_regular _ t HA).
  destruct (area_ratio_edge_point t s u HA) as (-> & -> & ->).
  pose proof (ratio_checks_true (Rabs (1 - s - u)) (Rabs s) (Rabs u))
    as Hchk.
  assert (Hiff : (0 <= Rabs (1 - s - u) <= 1) /\ (0 <= Rabs s <= 1)
                 /\ (0 <= Rabs u <= 1)
                 /\ Rabs (1 - s - u) + Rabs s + Rabs u - 1 < EPSILON
                 <-> Rabs (1 - s - u) <= 1 /\ Rabs s <= 1 /\ Rabs u <= 1
                     /\ Rabs (1 - s - u) + Rabs s + Rabs u - 1 < EPSILON).
  { pose proof (Rabs_pos (1 - s - u)). pose proof (Rabs_pos s).
    pose proof (Rabs_pos u). tauto. }
  rewrite Hiff in Hchk. rewrite <- Hchk.
  destruct (forallb _ _ && Rltb _ EPSILON); split; split;
    intros H'; try congruence; try reflexivity.
Qed.

Lemma plane_z0_area : face_area plane_z0 <> 0.
Proof.
  unfold_inputs.
  replace ((0 * 0 - 0 * 1) ^ 2 + (0 * 0 - 1 * 0) ^ 2 + (1 * 1 - 0 * 0) ^ 2)
    with 1 by ring.
  replace ((_ * _ - _ * _) ^ 2 + (_ * _ - _ * _) ^ 2 + (_ * _ - _ * _) ^ 2)
    with 1 by ring.
  rewrite sqrt_1. lra.
Qed.

Lemma point_in_triangle_edge_point (t : Plane) (s u : R) :
  face_area t <> 0 ->
  point_in_triangle (edge_point (vertex0 t) (vertex1 t) (vertex2 t) s u) t
  = Ok (ratio_checks (Rabs (1 - s - u)) (Rabs s) (Rabs u)).
Proof.
  intros HA. rewrite (point_in_triangle_regular _ t HA).
  destruct (area_ratio_edge_point t s u HA) as (-> & -> & ->).
  reflexivity.
Qed.

Lemma point_in_triangle_barycentric_witness :
  face_area plane_z0 <> 0
  /\ point_in_triangle
       (edge_point (vertex0 plane_z0) (vertex1 plane_z0) (vertex2 plane_z0)
                   (1 / 2) (1 / 2)) plane_z0
     = Ok true.
Proof.
  split; [ exact plane_z0_area | ].
  apply (proj1 (point_in_triangle_barycentric plane_z0 (1 / 2) (1 / 2)
                                              plane_z0_area)).
  replace (1 - 1 / 2 - 1 / 2) with 0 by field.
  rewrite Rabs_R0, (Rabs_pos_eq (1 / 2)) by lra.
  unfold EPSILON. lra.
Defined.

(** X12: over exact reals, every point of the closed triangle, vertices and
    edges included, is accepted. *)
Theorem point_in_triangle_accepts_closed_triangle (t : Plane) (s u : R) :
  face_area t <> 0 ->
  0 <= s -> 0 <= u -> s + u <= 1 ->
  point_in_triangle (edge_point (vertex0 t) (vertex1 t) (vertex2 t) s u) t
  = Ok true.
Proof.
  intros HA Hs Hu Hsu. rewrite (point_in_triangle_edge_point t s u HA).
  f_equal. apply ratio_checks_true.
  rewrite !Rabs_pos_eq by lra. pose proof EPSILON_pos. lra.
Qed.

Lemma point_in_triangle_accepts_closed_triangle_witness :
  face_area plane_z0 <> 0 /\ 0 <= 1 /\ 0 <= 0 /\ 1 + 0 <= 1
  /\ point_in_triangle
       (edge_point (vertex0 plane_z0) (vertex1 plane_z0) (vertex2 plane_z0)
                   1 0) plane_z0
     = Ok true.
Proof.
  assert (H1 : 0 <= 1) by lra. assert (H0 : 0 <= 0) by lra.
  assert (H10 : 1 + 0 <= 1) by lra.
  split; [ exact plane_z0_area | ].
  split; [ exact H1 | split; [ exact H0 | split; [ exact H10 | ] ] ].
  exact (point_in_triangle_accepts_closed_triangle plane_z0 1 0
           plane_z0_area H1 H0 H10).
Defined.

(** X13: over exact reals, an accepted point of the plane of the triangle is
    within the tolerance of the triangle: each of its three barycentric
    coordinates [1 - s - u], [s] and [u] is above [- EPSILON / 2] and at most 1. *)
Theorem point_in_triangle_accepted_within_tolerance (t : Plane) (s u : R) :
  face_area t <> 0 ->
  point_in_triangle (edge_point (vertex0 t) (vertex1 t) (vertex2 t) s u) t
  = Ok true ->
  (- (EPSILON / 2) < s <= 1)
  /\ (- (EPSILON / 2) < u <= 1)
  /\ (- (EPSILON / 2) < 1 - s - u <= 1).
Proof.
  intros HA Hin. rewrite (point_in_triangle_edge_point t s u HA) in Hin.
  injection Hin as Hin. apply ratio_checks_true in Hin.
  revert Hin. unfold Rabs.
  destruct (Rcase_abs (1 - s - u)), (Rcase_abs s), (Rcase_abs u);
    intros Hin; lra.
Qed.

Lemma point_in_triangle_accepted_within_tolerance_witness :
  face_area plane_z0 <> 0
  /\ point_in_triangle
       (edge_point (vertex0 plane_z0) (vertex1 plane_z0) (vertex2 plane_z0)
                   1 0) plane_z0
     = Ok true
  /\ (- (EPSILON / 2) < 1 <= 1).
Proof.
  assert (Hin : point_in_triangle
                  (edge_point (vertex0 plane_z0) (vertex1 plane_z0)
                              (vertex2 plane_z0) 1 0) plane_z0 = Ok true).
  { rewrite (point_in_triangle_edge_point plane_z0 1 0 plane_z0_area).
    f_equal. apply ratio_checks_true.
    replace (1 - 1 - 0) with 0 by ring.
    rewrite Rabs_R0, Rabs_R1. unfold EPSILON. lra. }
  split; [ exact plane_z0_area | split; [ exact Hin | ] ].
  exact (proj1 (point_in_triangle_accepted_within_tolerance
                  plane_z0 1 0 plane_z0_area Hin)).
Defined.

(** The test accepts points slightly outside the triangle: here the point
    with coordinates s = - EPSILON / 4, u = 1 / 2 of the triangle (0,0,0),
    (1,0,0), (0,1,0), which lies on the far side of the edge v0 v2. *)
Example point_in_triangle_accepts_outside_point :
  point_in_triangle
    (edge_point (vertex0 plane_z0) (vertex1 plane_z0) (vertex2 plane_z0)
                (- (EPSILON / 4)) (1 / 2)) plane_z0
  = Ok true.
Proof.
  rewrite (point_in_triangle_edge_point plane_z0 _ _ plane_z0_area).
  f_equal. apply ratio_checks_true. unfold EPSILON.
  rewrite (Rabs_pos_eq (1 / 2)) by lra.
  rewrite (Rabs_left (- (1 / 100000 / 4))) by lra.
  rewrite (Rabs_pos_eq (1 - - (1 / 100000 / 4) - 1 / 2)) by lra.
  lra.
Qed.

(** ** Order of the vertices of a face *)

Lemma area_symmetric (a b c : Vector3) :
  area b a c = area a b c /\ area a c b = area a b c.
Proof.
  unfold area. split.
  - replace (cross_product (a - b) (c - b))
      with (opp (cross_product (b - a) (c - a))) by vec_ring.
    rewrite norm_opp. reflexivity.
  - replace (cross_product (c - a) (b - a))
      with (opp (cross_product (b - a) (c - a))) by vec_ring.
    rewrite norm_opp. reflexivity.
Qed.

Lemma ratio_checks_true_iff (r1 r2 r3 : R) :
  ratio_checks r1 r2 r3 = true
  <-> (0 <= r1 <= 1) /\ (0 <= r2 <= 1) /\ (0 <= r3 <= 1)
      /\ r1 + r2 + r3 - 1 < EPSILON.
Proof. apply ratio_checks_true. Qed.

Lemma ratio_checks_symmetric (r1 r2 r3 : R) :
  ratio_checks r2 r1 r3 = ratio_checks r1 r2 r3
  /\ ratio_checks r1 r3 r2 = ratio_checks r1 r2 r3.
Proof.
  split; apply eq_true_iff_eq; rewrite !ratio_checks_true_iff;
    split; intros H; lra.
Qed.

(** The membership test in terms of the four areas. *)
Lemma point_in_triangle_by_areas (p a b c : Vector3) :
  point_in_triangle p (Plane_init (a, b, c))
  = if Req_dec_T (area a b c) 0
    then Raise ZeroDivisionError
    else Ok (ratio_checks (area p b c / area a b c)
                          (area p c a / area a b c)
                          (area p a b / area a b c)).
Proof.
  destruct (Req_dec_T (area a b c) 0) as [HA | HA].
  - apply point_in_triangle_degenerate. exact HA.
  - apply (point_in_triangle_regular p (Plane_init (a, b, c))). exact HA.
Qed.

Lemma point_in_triangle_swap01 (p a b c : Vector3) :
  point_in_triangle p (Plane_init (b, a, c))
  = point_in_triangle p (Plane_init (a, b, c)).
Proof.
  rewrite !point_in_triangle_by_areas.
  rewrite (proj1 (area_symmetric a b c)).
  rewrite (proj2 (area_symmetric p a c)), (proj2 (area_symmetric p c b)),
          (proj2 (area_symmetric p b a)).
  rewrite (proj1 (ratio_checks_symmetric _ _ _)). reflexivity.
Qed.

Lemma point_in_triangle_swap12 (p a b c : Vector3) :
  point_in_triangle p (Plane_init (a, c, b))
  = point_in_triangle p (Plane_init (a, b, c)).
Proof.
  rewrite !point_in_triangle_by_areas.
  rewrite (proj2 (area_symmetric a b c)).
  rewrite (proj2 (area_symmetric p c b)), (proj2 (area_symmetric p b a)),
          (proj2 (area_symmetric p a c)).
  rewrite (proj2 (ratio_checks_symmetric _ _ _)). reflexivity.
Qed.

(** X14: over exact reals, the membership test does not depend on the order in
    which the three vertices of the triangle are given, nor does it read the
    stored normal. *)
Theorem point_in_triangle_vertex_order (p a b c n : Vector3) :
  point_in_triangle p (Plane_init (b, a, c))
  = point_in_triangle p (Plane_init (a, b, c))
  /\ point_in_triangle p (Plane_init (a, c, b))
     = point_in_triangle p (Plane_init (a, b, c))
  /\ point_in_triangle p (Plane_init (c, b, a))
     = point_in_triangle p (Plane_init (a, b, c))
  /\ point_in_triangle p (Plane_init (b, c, a))
     = point_in_triangle p (Plane_init (a, b, c))
  /\ point_in_triangle p (Plane_init (c, a, b))
     = point_in_triangle p (Plane_init (a, b, c))
  /\ point_in_triangle p (mkPlane (a, b, c) n)
     = point_in_triangle p (Plane_init (a, b, c)).
Proof.
  split; [ apply point_in_triangle_swap01 | ].
  split; [ apply point_in_triangle_swap12 | ].
  split.
  { rewrite (point_in_triangle_swap01 p b c a).
    rewrite (point_in_triangle_swap12 p b a c).
    apply point_in_triangle_swap01. }
  split.
  { rewrite (point_in_triangle_swap12 p b a c).
    apply point_in_triangle_swap01. }
  split.
  { rewrite (point_in_triangle_swap01 p a c b).
    apply point_in_triangle_swap12. }
  reflexivity.
Qed.

(** The solver's outcome is fixed by the two dot products up to a common
    sign. *)
Lemma solver_same_up_to_sign (line : Line) (plane plane' : Plane) :
  dot_product (direction_vector line) (normal_vector plane')
  = - dot_product (direction_vector line) (normal_vector plane) ->
  dot_product (vertex0 plane' - point1 line) (normal_vector plane')
  = - dot_product (vertex0 plane - point1 line) (normal_vector plane) ->
  line_plane_intersection_point line plane'
  = line_plane_intersection_point line plane.
Proof.
  intros Hden Hnum.
  assert (Hiff : no_intersection line plane' <-> no_intersection line plane).
  { unfold no_intersection. rewrite Hden, Hnum, !Rabs_Ropp. reflexivity. }
  destruct (no_intersection_dec line plane) as [Hno | Hno].
  - rewrite (solver_none line plane Hno).
    apply solver_none, Hiff, Hno.
  - rewrite (solver_some line plane Hno).
    rewrite solver_some by (rewrite Hiff; exact Hno).
    assert (Hd : dot_product (direction_vector line) (normal_vector plane)
                 <> 0).
    { apply solver_guard_nonzero. unfold no_intersection in Hno. tauto. }
    replace (solver_d line plane') with (solver_d line plane);
      [ reflexivity | ].
    unfold solver_d. rewrite Hden, Hnum. field. exact Hd.
Qed.

Lemma solver_swap01 (line : Line) (a b c : Vector3) :
  line_plane_intersection_point line (Plane_init (b, a, c))
  = line_plane_intersection_point line (Plane_init (a, b, c)).
Proof.
  apply solver_same_up_to_sign;
    unfold dot_product;
    cbn [x y z cross_product sub vertex0 plane_vertices normal_vector
         normal_v Plane_init fst snd];
    ring.
Qed.

Lemma solver_swap12 (line : Line) (a b c : Vector3) :
  line_plane_intersection_point line (Plane_init (a, c, b))
  = line_plane_intersection_point line (Plane_init (a, b, c)).
Proof.
  apply solver_same_up_to_sign;
    unfold dot_product;
    cbn [x y z cross_product sub vertex0 plane_vertices normal_vector
         normal_v Plane_init fst snd];
    ring.
Qed.

(** X15: the solver does not depend on the order in which the three
    vertices of the face are given: the normal may change sign and another
    vertex may serve as the point of the plane, the outcome and the returned
    point are the same. *)
Theorem solver_vertex_order (line : Line) (a b c : Vector3) :
  line_plane_intersection_point line (Plane_init (b, a, c))
  = line_plane_intersection_point line (Plane_init (a, b, c))
  /\ line_plane_intersection_point line (Plane_init (a, c, b))
     = line_plane_intersection_point line (Plane_init (a, b, c))
  /\ line_plane_intersection_point line (Plane_init (c, b, a))
     = line_plane_intersection_point line (Plane_init (a, b, c))
  /\ line_plane_intersection_point line (Plane_init (b, c, a))
     = line_plane_intersection_point line (Plane_init (a, b, c))
  /\ line_plane_intersection_point line (Plane_init (c, a, b))
     = line_plane_intersection_point line (Plane_init (a, b, c)).
Proof.
  split; [ apply solver_swap01 | ].
  split; [ apply solver_swap12 | ].
  split.
  { rewrite (solver_swap01 line b c a), (solver_swap12 line b a c).
    apply solver_swap01. }
  split.
  { rewrite (solver_swap12 line b a c). apply solver_swap01. }
  rewrite (solver_swap01 line a c b). apply solver_swap12.
Qed.

Lemma accepts_swap01 (line : Line) (a b c : Vector3) :
  accepts line (Plane_init (b, a, c)) <-> accepts line (Plane_init (a, b, c)).
Proof.
  unfold accepts. split; intros (p & Hp & Hin); exists p.
  - rewrite solver_swap01 in Hp. rewrite point_in_triangle_swap01 in Hin.
    split; assumption.
  - rewrite solver_swap01, point_in_triangle_swap01. split; assumption.
Qed.

Lemma accepts_swap12 (line : Line) (a b c : Vector3) :
  accepts line (Plane_init (a, c, b)) <-> accepts line (Plane_init (a, b, c)).
Proof.
  unfold accepts. split; intros (p & Hp & Hin); exists p.
  - rewrite solver_swap12 in Hp. rewrite point_in_triangle_swap12 in Hin.
    split; assumption.
  - rewrite solver_swap12, point_in_triangle_swap12. split; assumption.
Qed.

(** ** The query, further *)

Lemma query_total (line : Line) (pyramid : Pyramid) :
  exists b : bool, line_intersection_with_pyramid line pyramid = Ok b.
Proof.
  rewrite query_scans_faces_in_order.
  apply scan_faces_total, faces_in_order_constructed.
Qed.

Lemma query_true_iff (line : Line) (pyramid : Pyramid) :
  line_intersection_with_pyramid line pyramid = Ok true
  <-> Exists (accepts line) (faces_in_order pyramid).
Proof.
  rewrite query_scans_faces_in_order.
  apply scan_faces_true_iff, faces_in_order_constructed.
Qed.

(** Two queries with the same accepting condition return the same result. *)
Lemma query_eq (line line' : Line) (pyramid pyramid' : Pyramid) :
  (Exists (accepts line) (faces_in_order pyramid)
   <-> Exists (accepts line') (faces_in_order pyramid')) ->
  line_intersection_with_pyramid line pyramid
  = line_intersection_with_pyramid line' pyramid'.
Proof.
  rewrite <- !query_true_iff. intros Hiff.
  destruct (query_total line pyramid) as [b Hb].
  destruct (query_total line' pyramid') as [b' Hb'].
  destruct b, b'; rewrite Hb, Hb'; try reflexivity; exfalso.
  - assert (H : line_intersection_with_pyramid line' pyramid' = Ok true)
      by (apply Hiff; exact Hb).
    congruence.
  - assert (H : line_intersection_with_pyramid line pyramid = Ok true)
      by (apply Hiff; exact Hb').
    congruence.
Qed.

(** X16: over exact reals, the query returns a boolean for every line and every
    pyramid, also a degenerate one: a face with collinear vertices is dropped by
    the solver before the membership test could divide by its zero area. *)
Theorem query_never_raises (line : Line) (pyramid : Pyramid) :
  (exists b : bool, line_intersection_with_pyramid line pyramid = Ok b)
  /\ (forall (face : Plane) (p : Vector3),
         In face (faces_in_order pyramid) ->
         line_plane_intersection_point line face = Ok (Some p) ->
         ~ collinear (vertex0 face) (vertex1 face) (vertex2 face)
         /\ exists b : bool, point_in_triangle p face = Ok b).
Proof.
  split; [ apply query_total | ].
  intros face p Hface Hp.
  assert (Hc : constructed face).
  { apply in_map_iff in Hface as (idx & <- & _).
    apply Plane_init_constructed. }
  pose proof (solver_some_area line face p Hc Hp) as HA.
  split.
  - intros Hcol. apply HA, collinear_iff_zero_area, Hcol.
  - rewrite (point_in_triangle_regular p face HA). eauto.
Qed.

Lemma accepts_reverse_line (line : Line) (face : Plane) :
  accepts (reverse_line line) face <-> accepts line face.
Proof.
  unfold accepts.
  pose proof (solver_reverse_line line face) as Hrev.
  split; intros (p & Hp & Hin); exists p; split; congruence.
Qed.

(** X9: the solver and the query treat the line as bidirectional: negating
    the direction vector changes neither the solver's outcome and point nor
    the query's answer. *)
Theorem direction_reversal (line : Line) (plane : Plane) (pyramid : Pyramid) :
  line_plane_intersection_point (reverse_line line) plane
  = line_plane_intersection_point line plane
  /\ line_intersection_with_pyramid (reverse_line line) pyramid
     = line_intersection_with_pyramid line pyramid.
Proof.
  split; [ apply solver_reverse_line | ].
  apply query_eq. rewrite !Exists_exists.
  split; intros (face & Hface & Hacc); exists face;
    (split; [ exact Hface | apply accepts_reverse_line; exact Hacc ]).
Qed.

Lemma faces_in_order_vertices (a b c d : Vector3) :
  faces_in_order (mkPyramid (a, b, c, d))
  = [Plane_init (a, b, c); Plane_init (a, b, d);
     Plane_init (a, c, d); Plane_init (b, c, d)].
Proof. reflexivity. Qed.

Lemma Exists_four {A : Type} (P : A -> Prop) (w1 w2 w3 w4 : A) :
  Exists P [w1; w2; w3; w4] <-> P w1 \/ P w2 \/ P w3 \/ P w4.
Proof. rewrite !Exists_cons, Exists_nil. tauto. Qed.

Lemma query_swap01 (line : Line) (a b c d : Vector3) :
  line_intersection_with_pyramid line (mkPyramid (b, a, c, d))
  = line_intersection_with_pyramid line (mkPyramid (a, b, c, d)).
Proof.
  apply query_eq. rewrite !faces_in_order_vertices, !Exists_four.
  rewrite (accepts_swap01 line a b c), (accepts_swap01 line a b d). tauto.
Qed.

Lemma query_swap12 (line : Line) (a b c d : Vector3) :
  line_intersection_with_pyramid line (mkPyramid (a, c, b, d))
  = line_intersection_with_pyramid line (mkPyramid (a, b, c, d)).
Proof.
  apply query_eq. rewrite !faces_in_order_vertices, !Exists_four.
  rewrite (accepts_swap12 line a b c), (accepts_swap01 line b c d). tauto.
Qed.

Lemma query_swap23 (line : Line) (a b c d : Vector3) :
  line_intersection_with_pyramid line (mkPyramid (a, b, d, c))
  = line_intersection_with_pyramid line (mkPyramid (a, b, c, d)).
Proof.
  apply query_eq. rewrite !faces_in_order_vertices, !Exists_four.
  rewrite (accepts_swap12 line a c d), (accepts_swap12 line b c d). tauto.
Qed.

Lemma query_permuted_lists (line : Line) (l l' : list Vector3) :
  Permutation l l' ->
  forall a b c d a' b' c' d' : Vector3,
    l = [a; b; c; d] -> l' = [a'; b'; c'; d'] ->
    line_intersection_with_pyramid line (mkPyramid (a, b, c, d))
    = line_intersection_with_pyramid line (mkPyramid (a', b', c', d')).
Proof.
  intros Hperm. pattern l, l'. revert l l' Hperm.
  apply Permutation_ind_transp.
  - intros l a b c d a' b' c' d' -> [= -> -> -> ->]. reflexivity.
  - intros v w l1 l2 a b c d a' b' c' d' H H'.
    destruct l1 as [ | e1 [ | e2 [ | e3 l1 ] ] ]; cbn [app] in H, H'.
    + destruct l2 as [ | f1 [ | f2 [ | f3 l2 ] ] ]; try discriminate.
      injection H as <- <- <- <-. injection H' as <- <- <- <-.
      apply query_swap01.
    + destruct l2 as [ | f1 [ | f2 l2 ] ]; try discriminate.
      injection H as <- <- <- <-. injection H' as <- <- <- <-.
      apply query_swap12.
    + destruct l2 as [ | f1 l2 ]; try discriminate.
      injection H as <- <- <- <-. injection H' as <- <- <- <-.
      apply query_swap23.
    + destruct l1 as [ | e4 [ | e5 l1 ] ]; cbn [app] in H; discriminate.
  - intros l l' l'' Hp IH Hp' IH' a b c d a' b' c' d' -> ->.
    pose proof (Permutation_length Hp) as Hlen. cbn [List.length] in Hlen.
    destruct l' as [ | m1 [ | m2 [ | m3 [ | m4 [ | m5 l' ] ] ] ] ];
      try discriminate.
    transitivity (line_intersection_with_pyramid
                    line (mkPyramid (m1, m2, m3, m4)));
      [ apply (IH a b c d m1 m2 m3 m4) | apply (IH' m1 m2 m3 m4) ];
      reflexivity.
Qed.

(** X17: the query's answer does not depend on the order in which the four
    vertices of the pyramid are given. *)
Theorem query_vertex_order (line : Line) (pyramid pyramid' : Pyramid) :
  Permutation (vertex_list pyramid) (vertex_list pyramid') ->
  line_intersection_with_pyramid line pyramid
  = line_intersection_with_pyramid line pyramid'.
Proof.
  destruct pyramid as [[[[a b] c] d]], pyramid' as [[[[a' b'] c'] d']].
  intros Hperm.
  apply (query_permuted_lists line _ _ Hperm); reflexivity.
Qed.

Lemma query_vertex_order_witness :
  Permutation
    (vertex_list main_pyramid)
    (vertex_list (mkPyramid (mkVector3 1 0 0, mkVector3 0 0 0,
                             mkVector3 0 1 0, mkVector3 1 1 1)))
  /\ line_intersection_with_pyramid main_line main_pyramid
     = line_intersection_with_pyramid main_line
         (mkPyramid (mkVector3 1 0 0, mkVector3 0 0 0,
                     mkVector3 0 1 0, mkVector3 1 1 1)).
Proof.
  assert (Hperm : Permutation
                    (vertex_list main_pyramid)
                    (vertex_list
                       (mkPyramid (mkVector3 1 0 0, mkVector3 0 0 0,
                                   mkVector3 0 1 0, mkVector3 1 1 1))))
    by apply perm_swap.
  split; [ exact Hperm | ].
  exact (query_vertex_order main_line main_pyramid _ Hperm).
Defined.

(** ** What a true answer means *)

Lemma solver_some_on_plane (line : Line) (plane : Plane) (p : Vector3) :
  line_plane_intersection_point line plane = Ok (Some p) ->
  on_plane p plane.
Proof.
  intros Hp. destruct (solver_some_den _ _ _ Hp) as [Hden _].
  apply solver_some_inv in Hp as [_ ->].
  revert Hden. unfold on_plane, solver_d, dot_product.
  cbn [x y z sub add mul]. intros Hden. field. exact Hden.
Qed.

(** A vector [w] in terms of two edge vectors and their cross product [n]:
    [(n . n) w = ((w x e2) . n) e1 + ((e1 x w) . n) e2 + (w . n) n]. *)
Lemma edge_basis_identity (e1 e2 w : Vector3) :
  (w * dot_product (cross_product e1 e2) (cross_product e1 e2))%vec
  = (e1 * dot_product (cross_product w e2) (cross_product e1 e2)
     + e2 * dot_product (cross_product e1 w) (cross_product e1 e2)
     + cross_product e1 e2 * dot_product w (cross_product e1 e2))%vec.
Proof.
  apply vector_eq; unfold dot_product;
    cbn [x y z cross_product add mul]; ring.
Qed.

Lemma dot_product_self_nonzero (n : Vector3) :
  n <> zero -> dot_product n n <> 0.
Proof.
  intros Hn H0. apply Hn. apply norm_zero_iff. unfold norm.
  replace (x n ^ 2 + y n ^ 2 + z n ^ 2) with (dot_product n n)
    by (unfold dot_product; ring).
  rewrite H0. apply sqrt_0.
Qed.

Lemma coordinate_from_identity (pa e1 e2 S U nn : R) :
  nn <> 0 ->
  pa * nn = e1 * S + e2 * U + 0 ->
  pa = e1 * (S / nn) + e2 * (U / nn).
Proof.
  intros Hnn H.
  replace (e1 * (S / nn) + e2 * (U / nn)) with ((e1 * S + e2 * U + 0) / nn)
    by (field; exact Hnn).
  rewrite <- H. field. exact Hnn.
Qed.

(** A point that satisfies the plane equation of a non-degenerate triangle
    has coordinates along its two edges. *)
Lemma on_plane_edge_point (a b c p : Vector3) :
  cross_product (b - a) (c - a) <> zero ->
  dot_product (p - a) (cross_product (b - a) (c - a)) = 0 ->
  exists s u : R, p = edge_point a b c s u.
Proof.
  intros Hn Hon.
  pose proof (dot_product_self_nonzero _ Hn) as Hnn.
  pose proof (edge_basis_identity (b - a) (c - a) (p - a)) as Hid.
  rewrite Hon in Hid.
  exists (dot_product (cross_product (p - a) (c - a))
                      (cross_product (b - a) (c - a))
          / dot_product (cross_product (b - a) (c - a))
                        (cross_product (b - a) (c - a))),
         (dot_product (cross_product (b - a) (p - a))
                      (cross_product (b - a) (c - a))
          / dot_product (cross_product (b - a) (c - a))
                        (cross_product (b - a) (c - a))).
  set (nn := dot_product (cross_product (b - a) (c - a))
                         (cross_product (b - a) (c - a))) in *.
  set (S := dot_product (cross_product (p - a) (c - a))
                        (cross_product (b - a) (c - a))) in *.
  set (U := dot_product (cross_product (b - a) (p - a))
                        (cross_product (b - a) (c - a))) in *.
  set (n := cross_product (b - a) (c - a)) in *.
  assert (Hx := f_equal x Hid). assert (Hy := f_equal y Hid).
  assert (Hz := f_equal z Hid).
  cbn [x y z add mul sub] in Hx, Hy, Hz.
  rewrite Rmult_0_r in Hx, Hy, Hz.
  apply (coordinate_from_identity _ _ _ _ _ _ Hnn) in Hx.
  apply (coordinate_from_identity _ _ _ _ _ _ Hnn) in Hy.
  apply (coordinate_from_identity _ _ _ _ _ _ Hnn) in Hz.
  unfold edge_point. apply vector_eq; cbn [x y z add mul sub]; lra.
Qed.

Lemma ratio_checks_bounds (s u : R) :
  ratio_checks (Rabs (1 - s - u)) (Rabs s) (Rabs u) = true ->
  (- (EPSILON / 2) < s <= 1)
  /\ (- (EPSILON / 2) < u <= 1)
  /\ (- (EPSILON / 2) < 1 - s - u <= 1).
Proof.
  intros Hin. apply ratio_checks_true_iff in Hin.
  revert Hin. unfold Rabs.
  destruct (Rcase_abs (1 - s - u)), (Rcase_abs s), (Rcase_abs u);
    intros Hin; lra.
Qed.

(** X18: over exact reals, when the query returns true, the line meets the plane
    of one of the four faces at a point whose three barycentric coordinates on
    that face are each above [- EPSILON / 2] and at most 1: the line passes
    through the face or within that tolerance of it. *)
Theorem query_true_sound (line : Line) (pyramid : Pyramid) :
  line_intersection_with_pyramid line pyramid = Ok true ->
  exists (face : Plane) (d s u : R),
    In face (faces_in_order pyramid)
    /\ on_plane (point1 line + direction_vector line * d)%vec face
    /\ (point1 line + direction_vector line * d)%vec
       = edge_point (vertex0 face) (vertex1 face) (vertex2 face) s u
    /\ (- (EPSILON / 2) < s <= 1)
    /\ (- (EPSILON / 2) < u <= 1)
    /\ (- (EPSILON / 2) < 1 - s - u <= 1).
Proof.
  intros Htrue. apply query_true_iff in Htrue.
  apply Exists_exists in Htrue as (face & Hface & p & Hp & Hin).
  assert (Hc : constructed face).
  { apply in_map_iff in Hface as (idx & <- & _).
    apply Plane_init_constructed. }
  pose proof (solver_some_area line face p Hc Hp) as HA.
  pose proof (solver_some_on_plane line face p Hp) as Hon.
  assert (Hn : cross_product (vertex1 face - vertex0 face)
                             (vertex2 face - vertex0 face) <> zero).
  { intros H0. apply HA, face_area_zero_iff, H0. }
  assert (Hnormal : normal_vector face
                    = cross_product (vertex1 face - vertex0 face)
                                    (vertex2 face - vertex0 face)).
  { unfold constructed in Hc. rewrite Hc.
    destruct (plane_vertices face) as [[v0 v1] v2]. reflexivity. }
  assert (Hon' := Hon). unfold on_plane in Hon'. rewrite Hnormal in Hon'.
  destruct (on_plane_edge_point _ _ _ p Hn Hon') as (s & u & Hsu).
  apply solver_some_inv in Hp as [_ Hpd].
  exists face, (solver_d line face), s, u.
  rewrite <- Hpd.
  split; [ exact Hface | split; [ exact Hon | split; [ exact Hsu | ] ] ].
  rewrite Hsu, (point_in_triangle_edge_point face s u HA) in Hin.
  injection Hin as Hin. apply ratio_checks_bounds, Hin.
Qed.

(** X19: over exact reals, when the two tolerance checks of the solver pass on a
    face and the solver's point lies in the closed triangle of that face, the
    query returns true. *)
Theorem query_true_complete
        (line : Line) (pyramid : Pyramid) (face : Plane) (s u : R) :
  In face (faces_in_order pyramid) ->
  ~ no_intersection line face ->
  (point1 line + direction_vector line * solver_d line face)%vec
  = edge_point (vertex0 face) (vertex1 face) (vertex2 face) s u ->
  0 <= s -> 0 <= u -> s + u <= 1 ->
  line_intersection_with_pyramid line pyramid = Ok true.
Proof.
  intros Hface Hno Hsu Hs Hu Hle.
  apply query_true_iff, Exists_exists. exists face.
  split; [ exact Hface | ].
  pose proof (solver_some line face Hno) as Hp.
  exists (point1 line + direction_vector line * solver_d line face)%vec.
  split; [ exact Hp | ].
  assert (Hc : constructed face).
  { apply in_map_iff in Hface as (idx & <- & _).
    apply Plane_init_constructed. }
  pose proof (solver_some_area line face _ Hc Hp) as HA.
  rewrite Hsu, (point_in_triangle_edge_point face s u HA).
  f_equal. apply ratio_checks_true_iff.
  rewrite !Rabs_pos_eq by lra. pose proof EPSILON_pos. lra.
Qed.

Lemma main_query_true :
  line_intersection_with_pyramid main_line main_pyramid = Ok true.
Proof.
  rewrite query_scans_faces_in_order, main_faces.
  rewrite !scan_faces_no_intersection by tolerance_fires.
  apply scan_faces_accepting_head. exists (mkVector3 1 1 1).
  split; [ exact main_last_face_point | exact main_last_face_inside ].
Qed.

Lemma query_true_sound_witness :
  line_intersection_with_pyramid main_line main_pyramid = Ok true
  /\ exists (face : Plane) (d s u : R),
       In face (faces_in_order main_pyramid)
       /\ on_plane (point1 main_line + direction_vector main_line * d)%vec
                   face
       /\ (point1 main_line + direction_vector main_line * d)%vec
          = edge_point (vertex0 face) (vertex1 face) (vertex2 face) s u
       /\ (- (EPSILON / 2) < s <= 1)
       /\ (- (EPSILON / 2) < u <= 1)
       /\ (- (EPSILON / 2) < 1 - s - u <= 1).
Proof.
  split; [ exact main_query_true | ].
  exact (query_true_sound main_line main_pyramid main_query_true).
Defined.

Lemma main_last_face_checks :
  ~ no_intersection main_line
      (Plane_init (mkVector3 1 0 0, mkVector3 0 1 0, mkVector3 1 1 1)).
Proof. tolerance_passes. Qed.

Lemma main_last_face_vertex :
  (point1 main_line
   + direction_vector main_line
     * solver_d main_line
         (Plane_init (mkVector3 1 0 0, mkVector3 0 1 0, mkVector3 1 1 1)))%vec
  = edge_point
      (vertex0 (Plane_init (mkVector3 1 0 0, mkVector3 0 1 0,
                            mkVector3 1 1 1)))
      (vertex1 (Plane_init (mkVector3 1 0 0, mkVector3 0 1 0,
                            mkVector3 1 1 1)))
      (vertex2 (Plane_init (mkVector3 1 0 0, mkVector3 0 1 0,
                            mkVector3 1 1 1)))
      0 1.
Proof.
  unfold edge_point. apply vector_eq; unfold_inputs; field; lra.
Qed.

Lemma main_last_face_in :
  In (Plane_init (mkVector3 1 0 0, mkVector3 0 1 0, mkVector3 1 1 1))
     (faces_in_order main_pyramid).
Proof. rewrite main_faces. cbn [In]. tauto. Qed.

Lemma query_true_complete_witness :
  In (Plane_init (mkVector3 1 0 0, mkVector3 0 1 0, mkVector3 1 1 1))
     (faces_in_order main_pyramid)
  /\ ~ no_intersection main_line
        (Plane_init (mkVector3 1 0 0, mkVector3 0 1 0, mkVector3 1 1 1))
  /\ 0 <= 0 /\ 0 <= 1 /\ 0 + 1 <= 1
  /\ line_intersection_with_pyramid main_line main_pyramid = Ok true.
Proof.
  assert (H0 : 0 <= 0) by lra. assert (H1 : 0 <= 1) by lra.
  assert (H01 : 0 + 1 <= 1) by lra.
  split; [ exact main_last_face_in | ].
  split; [ exact main_last_face_checks | ].
  split; [ exact H0 | split; [ exact H1 | split; [ exact H01 | ] ] ].
  exact (query_true_complete main_line main_pyramid _ 0 1
           main_last_face_in main_last_face_checks main_last_face_vertex
           H0 H1 H01).
Defined.

(** X20: over exact reals, the loop's answer does not depend on the order in
    which faces left by the constructor are visited. *)
Theorem scan_faces_order_independent (line : Line) (fs fs' : list Plane) :
  Forall constructed fs ->
  Permutation fs fs' ->
  scan_faces line fs = scan_faces line fs'.
Proof.
  intros Hfs Hperm.
  assert (Hfs' : Forall constructed fs').
  { apply Forall_forall. intros f Hf.
    apply (proj1 (Forall_forall _ _) Hfs).
    apply (Permutation_in _ (Permutation_sym Hperm) Hf). }
  assert (Hweak : forall l, Forall constructed l ->
                            Forall (fun f => constructed f
                                             \/ face_area f <> 0) l).
  { intros l Hl. apply Forall_forall. intros f Hf. left.
    apply (proj1 (Forall_forall _ _) Hl f Hf). }
  pose proof (scan_faces_true_iff line fs (Hweak _ Hfs)) as Ht.
  pose proof (scan_faces_true_iff line fs' (Hweak _ Hfs')) as Ht'.
  destruct (scan_faces_total line fs (Hweak _ Hfs)) as [b Hb].
  destruct (scan_faces_total line fs' (Hweak _ Hfs')) as [b' Hb'].
  assert (Hex : Exists (accepts line) fs <-> Exists (accepts line) fs').
  { rewrite !Exists_exists.
    split; intros (f & Hf & Hacc); exists f; (split; [ | exact Hacc ]).
    - apply (Permutation_in _ Hperm Hf).
    - apply (Permutation_in _ (Permutation_sym Hperm) Hf). }
  rewrite <- Ht, <- Ht' in Hex.
  destruct b, b'; rewrite Hb, Hb'; try reflexivity; exfalso.
  - assert (H : scan_faces line fs' = Ok true) by (apply Hex; exact Hb).
    congruence.
  - assert (H : scan_faces line fs = Ok true) by (apply Hex; exact Hb').
    congruence.
Qed.

Lemma scan_faces_order_independent_witness :
  Forall constructed [plane_z0; Plane_init (mkVector3 1 0 0, mkVector3 0 1 0,
                                            mkVector3 1 1 1)]
  /\ scan_faces main_line
       [plane_z0; Plane_init (mkVector3 1 0 0, mkVector3 0 1 0,
                              mkVector3 1 1 1)]
     = scan_faces main_line
         [Plane_init (mkVector3 1 0 0, mkVector3 0 1 0, mkVector3 1 1 1);
          plane_z0].
Proof.
  assert (Hfs : Forall constructed
                  [plane_z0; Plane_init (mkVector3 1 0 0, mkVector3 0 1 0,
                                         mkVector3 1 1 1)]).
  { repeat constructor. }
  split; [ exact Hfs | ].
  exact (scan_faces_order_independent main_line _ _ Hfs
           (perm_swap _ _ nil)).
Defined.

(** ** A line that starts at a vertex *)

Lemma solver_none_from_vertex0 (line : Line) (a b c : Vector3) :
  point1 line = a ->
  line_plane_intersection_point line (Plane_init (a, b, c)) = Ok None.
Proof.
  intros Ha. apply solver_none. right.
  replace (dot_product (vertex0 (Plane_init (a, b, c)) - point1 line)
                       (normal_vector (Plane_init (a, b, c)))) with 0.
  - rewrite Rabs_R0. exact EPSILON_pos.
  - rewrite Ha. unfold dot_product.
    cbn [x y z cross_product sub vertex0 plane_vertices normal_vector
         normal_v Plane_init fst snd].
    ring.
Qed.

Lemma not_accepts_from_vertex0 (line : Line) (a b c : Vector3) :
  point1 line = a -> ~ accepts line (Plane_init (a, b, c)).
Proof.
  intros Ha (p & Hp & _).
  rewrite (solver_none_from_vertex0 line a b c Ha) in Hp. discriminate.
Qed.

(** X25: over exact reals, when the origin point of the line is the first vertex
    of the pyramid, the three faces through that vertex yield no intersection,
    and the query returns true exactly when the opposite face accepts. *)
Theorem query_from_first_vertex (line : Line) (a b c d : Vector3) :
  point1 line = a ->
  line_plane_intersection_point line (Plane_init (a, b, c)) = Ok None
  /\ line_plane_intersection_point line (Plane_init (a, b, d)) = Ok None
  /\ line_plane_intersection_point line (Plane_init (a, c, d)) = Ok None
  /\ (line_intersection_with_pyramid line (mkPyramid (a, b, c, d)) = Ok true
      <-> accepts line (Plane_init (b, c, d))).
Proof.
  intros Ha.
  repeat (split; [ apply solver_none_from_vertex0, Ha | ]).
  rewrite query_true_iff, faces_in_order_vertices, Exists_four.
  pose proof (not_accepts_from_vertex0 line a b c Ha).
  pose proof (not_accepts_from_vertex0 line a b d Ha).
  pose proof (not_accepts_from_vertex0 line a c d Ha).
  tauto.
Qed.

Lemma query_from_first_vertex_witness :
  point1 main_line = mkVector3 0 0 0
  /\ (line_intersection_with_pyramid main_line main_pyramid = Ok true
      <-> accepts main_line
            (Plane_init (mkVector3 1 0 0, mkVector3 0 1 0,
                         mkVector3 1 1 1))).
Proof.
  split; [ reflexivity | ].
  exact (proj2 (proj2 (proj2
           (query_from_first_vertex main_line (mkVector3 0 0 0)
              (mkVector3 1 0 0) (mkVector3 0 1 0) (mkVector3 1 1 1)
              eq_refl)))).
Defined.

(** ** Moving the line and the pyramid together *)

Lemma area_translate (t a b c : Vector3) :
  area (a + t) (b + t) (c + t) = area a b c.
Proof.
  unfold area.
  replace (cross_product (b + t - (a + t)) (c + t - (a + t)))
    with (cross_product (b - a) (c - a)) by vec_ring.
  reflexivity.
Qed.

Lemma point_in_triangle_translate (t p a b c : Vector3) :
  point_in_triangle (p + t) (Plane_init ((a + t)%vec, (b + t)%vec,
                                         (c + t)%vec))
  = point_in_triangle p (Plane_init (a, b, c)).
Proof.
  rewrite !point_in_triangle_by_areas, !area_translate. reflexivity.
Qed.

Lemma no_intersection_translate (t : Vector3) (line : Line)
      (a b c : Vector3) :
  no_intersection (translate_line t line)
                  (Plane_init ((a + t)%vec, (b + t)%vec, (c + t)%vec))
  <-> no_intersection line (Plane_init (a, b, c)).
Proof.
  unfold no_intersection, translate_line, direction_vector, normal_vector.
  cbn [point1 direction vertex0 plane_vertices normal_v Plane_init fst snd].
  replace (cross_product (b + t - (a + t)) (c + t - (a + t)))
    with (cross_product (b - a) (c - a)) by vec_ring.
  replace (a + t - (point1 line + t))%vec with (a - point1 line)%vec
    by vec_ring.
  reflexivity.
Qed.

Lemma solver_d_translate (t : Vector3) (line : Line) (a b c : Vector3) :
  solver_d (translate_line t line)
           (Plane_init ((a + t)%vec, (b + t)%vec, (c + t)%vec))
  = solver_d line (Plane_init (a, b, c)).
Proof.
  unfold solver_d, translate_line, direction_vector, normal_vector.
  cbn [point1 direction vertex0 plane_vertices normal_v Plane_init fst snd].
  replace (cross_product (b + t - (a + t)) (c + t - (a + t)))
    with (cross_product (b - a) (c - a)) by vec_ring.
  replace (a + t - (point1 line + t))%vec with (a - point1 line)%vec
    by vec_ring.
  reflexivity.
Qed.

Lemma solver_translate (t : Vector3) (line : Line) (a b c : Vector3) :
  line_plane_intersection_point
    (translate_line t line)
    (Plane_init ((a + t)%vec, (b + t)%vec, (c + t)%vec))
  = match line_plane_intersection_point line (Plane_init (a, b, c)) with
    | Ok (Some p) => Ok (Some (p + t)%vec)
    | r => r
    end.
Proof.
  destruct (no_intersection_dec line (Plane_init (a, b, c))) as [Hno | Hno].
  - rewrite (solver_none _ _ Hno).
    apply solver_none, no_intersection_translate, Hno.
  - rewrite (solver_some _ _ Hno).
    rewrite solver_some by (rewrite no_intersection_translate; exact Hno).
    rewrite solver_d_translate. do 2 f_equal.
    unfold translate_line, direction_vector. cbn [point1 direction].
    vec_ring.
Qed.

Lemma accepts_translate (t : Vector3) (line : Line) (a b c : Vector3) :
  accepts (translate_line t line)
          (Plane_init ((a + t)%vec, (b + t)%vec, (c + t)%vec))
  <-> accepts line (Plane_init (a, b, c)).
Proof.
  unfold accepts. rewrite solver_translate.
  destruct (line_plane_intersection_point line (Plane_init (a, b, c)))
    as [[q | ] | e].
  - split.
    + intros (p & [= <-] & Hin). exists q.
      rewrite point_in_triangle_translate in Hin. split; [ reflexivity | ].
      exact Hin.
    + intros (p & [= <-] & Hin). exists (q + t)%vec.
      rewrite point_in_triangle_translate. split; [ reflexivity | ].
      exact Hin.
  - split; intros (p & Hp & _); discriminate.
  - split; intros (p & Hp & _); discriminate.
Qed.

(** X26: the query is invariant under translation: moving the origin point
    of the line and the four vertices of the pyramid by the same vector
    leaves the answer unchanged, and moves the solver's point on each face
    by that vector. *)
Theorem query_translation_invariant
        (t : Vector3) (line : Line) (pyramid : Pyramid) :
  line_intersection_with_pyramid (translate_line t line)
                                 (translate_pyramid t pyramid)
  = line_intersection_with_pyramid line pyramid
  /\ (forall a b c : Vector3,
         line_plane_intersection_point
           (translate_line t line)
           (Plane_init ((a + t)%vec, (b + t)%vec, (c + t)%vec))
         = match line_plane_intersection_point line (Plane_init (a, b, c))
           with
           | Ok (Some p) => Ok (Some (p + t)%vec)
           | r => r
           end).
Proof.
  split; [ | intros a b c; apply solver_translate ].
  destruct pyramid as [[[[a b] c] d]].
  unfold translate_pyramid. cbn [pyramid_vertices].
  apply query_eq. rewrite !faces_in_order_vertices, !Exists_four.
  rewrite !accepts_translate. reflexivity.
Qed.

End Geometry.

(** * Properties of q1.py *)

Section Rotation.

Import Q1.
Local Open Scope Z_scope.
Local Open Scope string_scope.

Lemma string_rotation_valid (s : string) (angle : Z) :
  angle = 0 \/ angle = 90 \/ angle = 180 \/ angle = 270 ->
  exists r : string, string_rotation s angle = Ok r.
Proof.
  unfold string_rotation.
  intros [-> | [-> | [-> | ->]]]; cbn; eauto.
Qed.

Lemma string_rotation_invalid (s : string) (angle : Z) :
  ~ (angle = 0 \/ angle = 90 \/ angle = 180 \/ angle = 270) ->
  string_rotation s angle = Raise (Exception "Invalid angle").
Proof.
  intros Hbad. unfold string_rotation.
  destruct (Z.eqb_spec angle 0); [ tauto | ].
  destruct (Z.eqb_spec angle 90); [ tauto | ].
  destruct (Z.eqb_spec angle 180); [ tauto | ].
  destruct (Z.eqb_spec angle 270); [ tauto | ].
  reflexivity.
Qed.

(** The four calls of the [__main__] block. *)
Example string_rotation_allo :
  string_rotation "allo" 0 = Ok "allo"
  /\ string_rotation "allo" 90
     = Ok ("o" ++ newline ++ "l" ++ newline ++ "l" ++ newline ++ "a")
  /\ string_rotation "allo" 180 = Ok "olla"
  /\ string_rotation "allo" 270
     = Ok ("a" ++ newline ++ "l" ++ newline ++ "l" ++ newline ++ "o").
Proof. repeat split. Qed.

(** C10: [string_rotation] returns a string for the angles 0, 90, 180 and
    270, and raises for every other angle. *)
Theorem string_rotation_accepts_exactly_four_angles
        (s : string) (angle : Z) :
  (angle = 0 \/ angle = 90 \/ angle = 180 \/ angle = 270 <->
   exists r : string, string_rotation s angle = Ok r)
  /\ (~ (angle = 0 \/ angle = 90 \/ angle = 180 \/ angle = 270) <->
      exists e : exn, string_rotation s angle = Raise e)
  /\ string_rotation s 0 = Ok s
  /\ string_rotation s 90 = Ok (join newline (reversed s))
  /\ string_rotation s 180 = Ok (join EmptyString (reversed s))
  /\ string_rotation s 270 = Ok (join newline (chars s)).
Proof.
  assert (Hdec : (angle = 0 \/ angle = 90 \/ angle = 180 \/ angle = 270)
                 \/ ~ (angle = 0 \/ angle = 90 \/ angle = 180
                       \/ angle = 270)) by lia.
  split; [ | split; [ | repeat split ] ].
  - split; [ apply string_rotation_valid | ].
    intros [r Hr]. destruct Hdec as [H | H]; [ exact H | ].
    rewrite (string_rotation_invalid s angle H) in Hr. discriminate.
  - split.
    + intros H. rewrite (string_rotation_invalid s angle H). eauto.
    + intros [e He] H.
      destruct (string_rotation_valid s angle H) as [r Hr]. congruence.
Qed.

(** * Further properties of q1.py *)

Lemma join_cons2 (sep a b : string) (t : list string) :
  join sep (a :: b :: t) = a ++ sep ++ join sep (b :: t).
Proof. reflexivity. Qed.

Lemma append_empty_r (s : string) : s ++ EmptyString = s.
Proof. induction s as [ | c s IH ]; cbn; [ | rewrite IH ]; reflexivity. Qed.

Lemma append_assoc (s1 s2 s3 : string) :
  (s1 ++ s2) ++ s3 = s1 ++ (s2 ++ s3).
Proof. induction s1 as [ | c s1 IH ]; cbn; [ | rewrite IH ]; reflexivity. Qed.

Lemma join_empty_cons (a : string) (l : list string) :
  join EmptyString (a :: l) = a ++ join EmptyString l.
Proof.
  destruct l as [ | b l ]; [ cbn; rewrite append_empty_r | ]; reflexivity.
Qed.

Lemma join_empty_app (l1 l2 : list string) :
  join EmptyString (l1 ++ l2)%list
  = join EmptyString l1 ++ join EmptyString l2.
Proof.
  induction l1 as [ | a l1 IH ]; [ reflexivity | ].
  cbn [app]. rewrite !join_empty_cons, IH, append_assoc. reflexivity.
Qed.

Lemma chars_append (s1 s2 : string) :
  chars (s1 ++ s2) = (chars s1 ++ chars s2)%list.
Proof.
  induction s1 as [ | c s1 IH ]; cbn; [ | rewrite IH ]; reflexivity.
Qed.

Lemma join_empty_chars (s : string) : join EmptyString (chars s) = s.
Proof.
  induction s as [ | c s IH ]; [ reflexivity | ].
  cbn [chars]. rewrite join_empty_cons, IH. reflexivity.
Qed.

(** Splitting the concatenation of one-character strings gives them back. *)
Lemma chars_join_empty_chars (l : list string) :
  Forall (fun a => exists c : ascii, a = String c EmptyString) l ->
  chars (join EmptyString l) = l.
Proof.
  induction 1 as [ | a l [c ->] _ IH ]; [ reflexivity | ].
  rewrite join_empty_cons. cbn. rewrite IH. reflexivity.
Qed.

Lemma chars_singletons (s : string) :
  Forall (fun a => exists c : ascii, a = String c EmptyString) (chars s).
Proof.
  induction s as [ | c s IH ]; constructor; [ eauto | exact IH ].
Qed.

Lemma chars_reversed (s : string) :
  chars (join EmptyString (reversed s)) = reversed s.
Proof.
  apply chars_join_empty_chars. unfold reversed.
  apply Forall_rev, chars_singletons.
Qed.

(** X21: rotating by 180 twice gives the string back. *)
Theorem string_rotation_180_involution (s : string) :
  exists r : string,
    string_rotation s 180 = Ok r /\ string_rotation r 180 = Ok s.
Proof.
  exists (join EmptyString (reversed s)). split; [ reflexivity | ].
  cbn. f_equal. unfold reversed at 1.
  rewrite chars_reversed. unfold reversed.
  rewrite rev_involutive. apply join_empty_chars.
Qed.

(** X22: the four rotations compose: 90 is 180 followed by 270, 270 is 180
    followed by 90, and 0 leaves the string unchanged. *)
Theorem string_rotation_composes (s : string) :
  exists r : string,
    string_rotation s 180 = Ok r
    /\ string_rotation r 270 = string_rotation s 90
    /\ string_rotation r 90 = string_rotation s 270
    /\ string_rotation s 0 = Ok s.
Proof.
  exists (join EmptyString (reversed s)).
  split; [ reflexivity | ].
  split; [ cbn; rewrite chars_reversed; reflexivity | ].
  split; [ | reflexivity ].
  cbn. f_equal. unfold reversed at 1. rewrite chars_reversed.
  unfold reversed. rewrite rev_involutive. reflexivity.
Qed.

Lemma string_length_append (a b : string) :
  String.length (a ++ b) = (String.length a + String.length b)%nat.
Proof. induction a as [ | c a IH ]; cbn; [ | rewrite IH ]; reflexivity. Qed.

Lemma length_chars (s : string) :
  List.length (chars s) = String.length s.
Proof. induction s as [ | c s IH ]; cbn; [ | rewrite IH ]; reflexivity. Qed.

Lemma length_join_newline (l : list string) :
  Forall (fun a => exists c : ascii, a = String c EmptyString) l ->
  String.length (join newline l) = (2 * List.length l - 1)%nat.
Proof.
  induction 1 as [ | a l [c ->] Hl IH ]; [ reflexivity | ].
  destruct l as [ | b l ]; [ reflexivity | ].
  rewrite join_cons2, !string_length_append, IH.
  cbn [String.length List.length newline]. lia.
Qed.

Lemma length_reversed (s : string) :
  List.length (reversed s) = String.length s.
Proof. unfold reversed. rewrite length_rev. apply length_chars. Qed.

Lemma length_join_reversed (s : string) :
  String.length (join EmptyString (reversed s)) = String.length s.
Proof.
  rewrite <- (length_chars (join EmptyString (reversed s))), chars_reversed.
  apply length_reversed.
Qed.

(** X23: rotating by 180 keeps the length of the string; rotating by 90 or
    270 gives one character per line, [2 * len(s) - 1] characters in all,
    and the empty string for the empty string. *)
Theorem string_rotation_lengths (s : string) :
  exists r90 r180 r270 : string,
    string_rotation s 90 = Ok r90
    /\ string_rotation s 180 = Ok r180
    /\ string_rotation s 270 = Ok r270
    /\ String.length r180 = String.length s
    /\ String.length r90 = (2 * String.length s - 1)%nat
    /\ String.length r270 = (2 * String.length s - 1)%nat
    /\ (s = EmptyString ->
        r90 = EmptyString /\ r180 = EmptyString /\ r270 = EmptyString).
Proof.
  exists (join newline (reversed s)), (join EmptyString (reversed s)),
         (join newline (chars s)).
  repeat (split; [ reflexivity | ]).
  split; [ apply length_join_reversed | ].
  split.
  { rewrite length_join_newline, length_reversed; [ reflexivity | ].
    unfold reversed. apply Forall_rev, chars_singletons. }
  split.
  { rewrite length_join_newline, length_chars; [ reflexivity | ].
    apply chars_singletons. }
  intros ->. repeat split.
Qed.

Lemma nth_error_chars (s : string) :
  forall i : nat,
    nth_error (chars s) i
    = option_map (fun c => String c EmptyString) (get i s).
Proof.
  induction s as [ | c s IH ]; intros [ | i ]; cbn; try reflexivity.
  apply IH.
Qed.

Lemma option_map_singleton_inj (o1 o2 : option ascii) :
  option_map (fun c => String c EmptyString) o1
  = option_map (fun c => String c EmptyString) o2 ->
  o1 = o2.
Proof. destruct o1, o2; cbn; congruence. Qed.

Lemma get_reversed (s : string) (i : nat) :
  (i < String.length s)%nat ->
  get i (join EmptyString (reversed s)) = get (String.length s - S i) s.
Proof.
  intros Hi. apply option_map_singleton_inj.
  rewrite <- !nth_error_chars, chars_reversed. unfold reversed.
  rewrite nth_error_rev, length_chars.
  destruct (Nat.ltb_spec i (String.length s)); [ reflexivity | lia ].
Qed.

Lemma get_join_newline_even (s : string) :
  forall i : nat,
    (i < String.length s)%nat ->
    get (2 * i) (join newline (chars s)) = get i s.
Proof.
  induction s as [ | c s IH ]; intros i Hi; [ cbn in Hi; lia | ].
  destruct s as [ | c' s ].
  - cbn in Hi. assert (i = 0%nat) as -> by lia. reflexivity.
  - destruct i as [ | i ]; [ reflexivity | ].
    replace (2 * S i)%nat with (S (S (2 * i))) by lia.
    cbn [chars]. rewrite join_cons2.
    change (get (2 * i) (join newline (chars (String c' s)))
            = get i (String c' s)).
    apply IH. cbn in Hi |- *. lia.
Qed.

Lemma get_join_newline_odd (s : string) :
  forall i : nat,
    (S i < String.length s)%nat ->
    get (2 * i + 1) (join newline (chars s)) = Some (ascii_of_nat 10).
Proof.
  induction s as [ | c s IH ]; intros i Hi; [ cbn in Hi; lia | ].
  destruct s as [ | c' s ]; [ cbn in Hi; lia | ].
  destruct i as [ | i ]; [ reflexivity | ].
  replace (2 * S i + 1)%nat with (S (S (2 * i + 1))) by lia.
  cbn [chars]. rewrite join_cons2.
  change (get (2 * i + 1) (join newline (chars (String c' s)))
          = Some (ascii_of_nat 10)).
  apply IH. cbn in Hi |- *. lia.
Qed.

(** X24: the layout of the rotations: 180 reverses the string; 270 puts the
    characters of the string at the even positions, in order, with a line
    feed after each but the last; 90 does the same with the characters in
    reverse order. *)
Theorem string_rotation_layout (s : string) :
  exists r90 r180 r270 : string,
    string_rotation s 90 = Ok r90
    /\ string_rotation s 180 = Ok r180
    /\ string_rotation s 270 = Ok r270
    /\ (forall i : nat,
          (i < String.length s)%nat ->
          get i r180 = get (String.length s - S i) s
          /\ get (2 * i) r270 = get i s
          /\ get (2 * i) r90 = get (String.length s - S i) s)
    /\ (forall i : nat,
          (S i < String.length s)%nat ->
          get (2 * i + 1) r270 = Some (ascii_of_nat 10)
          /\ get (2 * i + 1) r90 = Some (ascii_of_nat 10)).
Proof.
  exists (join newline (reversed s)), (join EmptyString (reversed s)),
         (join newline (chars s)).
  repeat (split; [ reflexivity | ]).
  assert (H90 : join newline (reversed s)
                = join newline (chars (join EmptyString (reversed s))))
    by (rewrite chars_reversed; reflexivity).
  split.
  - intros i Hi.
    split; [ apply get_reversed, Hi | ].
    split; [ apply get_join_newline_even, Hi | ].
    rewrite H90, get_join_newline_even
      by (rewrite length_join_reversed; exact Hi).
    apply get_reversed, Hi.
  - intros i Hi.
    split; [ apply get_join_newline_odd, Hi | ].
    rewrite H90. apply get_join_newline_odd.
    rewrite length_join_reversed. exact Hi.
Qed.

End Rotation.

(** * Properties of q2.py on binary64 numbers *)

Section Binary64.

Import Q2F.
Local Open Scope float_scope.
Local Open Scope result_scope.

(** ** Zero divisors *)

Lemma eqb_zero_cases (b : float) :
  (b =? 0) = true -> b = 0 \/ b = (-0).
Proof.
  rewrite FloatAxioms.eqb_spec. intros Hb.
  rewrite <- (SF2Prim_Prim2SF b).
  destruct (Prim2SF b) as [ [ | ] | s | | s m e ];
    try (left; reflexivity); try (right; reflexivity);
    exfalso; revert Hb; try destruct s; cbv; discriminate.
Qed.


Lemma truediv_Ok (a b : float) :
  (b =? 0) = false -> truediv a b = Ok (a / b).
Proof. intros Hb. unfold truediv. rewrite Hb. reflexivity. Qed.

Lemma truediv_Raise (a b : float) :
  (b =? 0) = true -> truediv a b = Raise ZeroDivisionError.
Proof. intros Hb. unfold truediv. rewrite Hb. reflexivity. Qed.

(** ** The solver *)


(** ** The membership test *)

(** The test as a cascade: the two magnitudes computed first, the divisor,
    then the two other magnitudes. *)
Lemma point_in_triangle_cascade (p : Vector3) (t : Plane) :
  point_in_triangle p t
  = (m <- magnitude (edge_cross t) ;;
     m1 <- magnitude (point_cross p (vertex1 t) (vertex2 t)) ;;
     if doubled_area m =? 0 then Raise ZeroDivisionError
     else
       m2 <- magnitude (point_cross p (vertex2 t) (vertex0 t)) ;;
       m3 <- magnitude (point_cross p (vertex0 t) (vertex1 t)) ;;
       Ok (ratio_checks (m1 / doubled_area m) (m2 / doubled_area m)
                        (m3 / doubled_area m))).
Proof.
  unfold point_in_triangle, edge_cross, point_cross, doubled_area.
  destruct (magnitude (cross_product (sub (vertex1 t) (vertex0 t)) _))
    as [m | e]; cbn [bind]; [ | reflexivity ].
  rewrite (truediv_Ok m 2) by reflexivity. cbn [bind].
  destruct (magnitude (cross_product (sub p (vertex1 t)) _))
    as [m1 | e]; cbn [bind]; [ | reflexivity ].
  destruct (2 * (m / 2) =? 0) eqn:Hzero.
  - rewrite (truediv_Raise _ _ Hzero). reflexivity.
  - rewrite (truediv_Ok _ _ Hzero). cbn [bind].
    destruct (magnitude (cross_product (sub p (vertex2 t)) _))
      as [m2 | e]; cbn [bind]; [ | reflexivity ].
    rewrite (truediv_Ok _ _ Hzero). cbn [bind].
    destruct (magnitude (cross_product (sub p (vertex0 t)) _))
      as [m3 | e]; cbn [bind]; [ | reflexivity ].
    rewrite (truediv_Ok _ _ Hzero). cbn [bind]. reflexivity.
Qed.


Lemma magnitude_raises (v : Vector3) (e : exn) :
  magnitude v = Raise e -> e = OverflowError \/ e = ValueError.
Proof.
  unfold magnitude, pow2, math_sqrt.
  repeat match goal with
         | |- context [if ?b then _ else _] => destruct b; cbn [bind]
         end;
    intros [= <-]; tauto.
Qed.



(** A triangle whose computed cross product has three zero components has
    magnitude zero and a zero divisor. *)
Lemma zero_cross_zero_divisor (n : Vector3) :
  (x n =? 0) = true -> (y n =? 0) = true -> (z n =? 0) = true ->
  exists m : float, magnitude n = Ok m /\ (doubled_area m =? 0) = true.
Proof.
  destruct n as [nx ny nz]. cbn [x y z]. intros Hx Hy Hz.
  destruct (eqb_zero_cases nx Hx) as [-> | ->];
    destruct (eqb_zero_cases ny Hy) as [-> | ->];
    destruct (eqb_zero_cases nz Hz) as [-> | ->];
    exists 0; split; reflexivity.
Qed.

(** C5 (amended): the test raises ZeroDivisionError exactly when the first
    two magnitudes are computed without overflow and the computed divisor
    [2 * triangle_area] is zero; with a nonzero computed divisor no division
    by zero occurs; a triangle whose computed cross product is zero has a
    zero divisor. *)
Theorem point_in_triangle_zero_division (p : Vector3) (t : Plane) :
  (point_in_triangle p t = Raise ZeroDivisionError
   <-> exists m m1 : float,
         magnitude (edge_cross t) = Ok m
         /\ magnitude (point_cross p (vertex1 t) (vertex2 t)) = Ok m1
         /\ (doubled_area m =? 0) = true)
  /\ (forall m : float,
         magnitude (edge_cross t) = Ok m ->
         (doubled_area m =? 0) = false ->
         point_in_triangle p t <> Raise ZeroDivisionError)
  /\ ((x (edge_cross t) =? 0) = true ->
      (y (edge_cross t) =? 0) = true ->
      (z (edge_cross t) =? 0) = true ->
      forall m1 : float,
        magnitude (point_cross p (vertex1 t) (vertex2 t)) = Ok m1 ->
        point_in_triangle p t = Raise ZeroDivisionError).
Proof.
  assert (Hiff : point_in_triangle p t = Raise ZeroDivisionError
                 <-> exists m m1 : float,
                       magnitude (edge_cross t) = Ok m
                       /\ magnitude (point_cross p (vertex1 t) (vertex2 t))
                          = Ok m1
                       /\ (doubled_area m =? 0) = true).
  { rewrite point_in_triangle_cascade. split.
    - destruct (magnitude (edge_cross t)) as [m | e] eqn:Hm; cbn [bind].
      + destruct (magnitude (point_cross p (vertex1 t) (vertex2 t)))
          as [m1 | e] eqn:Hm1; cbn [bind].
        * destruct (doubled_area m =? 0) eqn:Hzero; [ eauto | ].
          destruct (magnitude (point_cross p (vertex2 t) (vertex0 t)))
            as [m2 | e] eqn:Hm2; cbn [bind].
          -- destruct (magnitude (point_cross p (vertex0 t) (vertex1 t)))
               as [m3 | e] eqn:Hm3; cbn [bind]; [ discriminate | ].
             intros [= ->].
             destruct (magnitude_raises _ _ Hm3); discriminate.
          -- intros [= ->].
             destruct (magnitude_raises _ _ Hm2); discriminate.
        * intros [= ->]. destruct (magnitude_raises _ _ Hm1); discriminate.
      + intros [= ->]. destruct (magnitude_raises _ _ Hm); discriminate.
    - intros (m & m1 & -> & -> & Hzero). cbn [bind]. rewrite Hzero.
      reflexivity. }
  split; [ exact Hiff | split ].
  - intros m Hm Hzero Hraise. apply Hiff in Hraise as (m' & m1 & Hm' & _ & H).
    rewrite Hm in Hm'. injection Hm' as <-. congruence.
  - intros Hx Hy Hz m1 Hm1.
    destruct (zero_cross_zero_divisor _ Hx Hy Hz) as (m & Hm & Hzero).
    apply Hiff. eauto.
Qed.

(** ** The loop and the query *)

Lemma scan_faces_accepts (line : Line) (face : Plane) (rest : list Plane) :
  accepts line face -> scan_faces line (face :: rest) = Ok true.
Proof.
  intros (p & Hp & Hin). cbn [scan_faces]. rewrite Hp. cbn [bind].
  rewrite Hin. reflexivity.
Qed.

Lemma scan_faces_rejects (line : Line) (face : Plane) (rest : list Plane) :
  rejects line face -> scan_faces line (face :: rest) = scan_faces line rest.
Proof.
  intros [Hnone | (p & Hp & Hin)]; cbn [scan_faces].
  - rewrite Hnone. reflexivity.
  - rewrite Hp. cbn [bind]. rewrite Hin. reflexivity.
Qed.

Lemma scan_faces_raises (line : Line) (face : Plane) (rest : list Plane)
      (e : exn) :
  raises line face e -> scan_faces line (face :: rest) = Raise e.
Proof.
  intros [Hraise | (p & Hp & Hin)]; cbn [scan_faces].
  - rewrite Hraise. reflexivity.
  - rewrite Hp. cbn [bind]. rewrite Hin. reflexivity.
Qed.

Lemma face_outcome (line : Line) (face : Plane) :
  accepts line face \/ rejects line face
  \/ exists e : exn, raises line face e.
Proof.
  unfold accepts, rejects, raises.
  destruct (line_plane_intersection_point line face) as [[p | ] | e].
  - destruct (point_in_triangle p face) as [[ | ] | e] eqn:Hin.
    + left. eauto.
    + right. left. right. eauto.
    + right. right. exists e. right. eauto.
  - right. left. left. reflexivity.
  - right. right. exists e. left. reflexivity.
Qed.

Lemma scan_faces_after_rejected (line : Line) (pre rest : list Plane) :
  Forall (rejects line) pre ->
  scan_faces line (pre ++ rest) = scan_faces line rest.
Proof.
  induction 1 as [ | f pre Hf _ IH ]; [ reflexivity | ].
  cbn [app]. rewrite (scan_faces_rejects _ _ _ Hf). exact IH.
Qed.

Lemma scan_faces_Ok_true (line : Line) (fs : list Plane) :
  scan_faces line fs = Ok true
  <-> exists (pre : list Plane) (face : Plane) (post : list Plane),
        fs = (pre ++ face :: post)%list
        /\ Forall (rejects line) pre /\ accepts line face.
Proof.
  split.
  - induction fs as [ | f fs IH ]; [ discriminate | ].
    destruct (face_outcome line f) as [Hacc | [Hrej | [e Hraise]]].
    + intros _. exists [], f, fs. repeat split; [ constructor | exact Hacc ].
    + rewrite (scan_faces_rejects _ _ _ Hrej). intros Htrue.
      destruct (IH Htrue) as (pre & face & post & -> & Hpre & Hacc).
      exists (f :: pre), face, post.
      repeat split; [ constructor; assumption | exact Hacc ].
    + rewrite (scan_faces_raises _ _ _ _ Hraise). discriminate.
  - intros (pre & face & post & -> & Hpre & Hacc).
    rewrite (scan_faces_after_rejected _ _ _ Hpre).
    apply scan_faces_accepts, Hacc.
Qed.

Lemma scan_faces_Ok_false (line : Line) (fs : list Plane) :
  scan_faces line fs = Ok false <-> Forall (rejects line) fs.
Proof.
  split.
  - induction fs as [ | f fs IH ]; [ constructor | ].
    destruct (face_outcome line f) as [Hacc | [Hrej | [e Hraise]]].
    + rewrite (scan_faces_accepts _ _ _ Hacc). discriminate.
    + rewrite (scan_faces_rejects _ _ _ Hrej). intros Hfalse.
      constructor; [ exact Hrej | exact (IH Hfalse) ].
    + rewrite (scan_faces_raises _ _ _ _ Hraise). discriminate.
  - intros Hall.
    rewrite <- (app_nil_r fs), (scan_faces_after_rejected _ _ _ Hall).
    reflexivity.
Qed.

Lemma scan_faces_Raise (line : Line) (fs : list Plane) (e : exn) :
  scan_faces line fs = Raise e
  <-> exists (pre : list Plane) (face : Plane) (post : list Plane),
        fs = (pre ++ face :: post)%list
        /\ Forall (rejects line) pre /\ raises line face e.
Proof.
  split.
  - induction fs as [ | f fs IH ]; [ discriminate | ].
    destruct (face_outcome line f) as [Hacc | [Hrej | [e' Hraise]]].
    + rewrite (scan_faces_accepts _ _ _ Hacc). discriminate.
    + rewrite (scan_faces_rejects _ _ _ Hrej). intros He.
      destruct (IH He) as (pre & face & post & -> & Hpre & Hr).
      exists (f :: pre), face, post.
      repeat split; [ constructor; assumption | exact Hr ].
    + rewrite (scan_faces_raises _ _ _ _ Hraise). intros [= ->].
      exists [], f, fs. repeat split; [ constructor | exact Hraise ].
  - intros (pre & face & post & -> & Hpre & Hraise).
    rewrite (scan_faces_after_rejected _ _ _ Hpre).
    apply scan_faces_raises, Hraise.
Qed.

Lemma faces_are_faces_in_order (pyramid : Pyramid) :
  faces pyramid = Ok (faces_in_order pyramid).
Proof. destruct pyramid as [[[[v0 v1] v2] v3]]. reflexivity. Qed.

Lemma query_is_scan (line : Line) (pyramid : Pyramid) :
  line_intersection_with_pyramid line pyramid
  = scan_faces line (faces_in_order pyramid).
Proof.
  unfold line_intersection_with_pyramid.
  rewrite faces_are_faces_in_order. reflexivity.
Qed.

(** C1 (amended): the query visits the 4 faces in the order of section 4.3.
    It returns true exactly when some face accepts and every face before it
    is rejected without an exception, and then whatever the later faces are;
    it returns false exactly when all 4 faces are rejected without an
    exception; the exception raised on a face reached before any accepting
    face propagates.  When no face raises, it returns true if and only if
    at least one face accepts, and false if and only if none does. *)
Theorem query_outcome_by_faces (line : Line) (pyramid : Pyramid) :
  faces pyramid = Ok (faces_in_order pyramid)
  /\ line_intersection_with_pyramid line pyramid
     = scan_faces line (faces_in_order pyramid)
  /\ (line_intersection_with_pyramid line pyramid = Ok true
      <-> exists (pre : list Plane) (face : Plane) (post : list Plane),
            faces_in_order pyramid = (pre ++ face :: post)%list
            /\ Forall (rejects line) pre /\ accepts line face)
  /\ (line_intersection_with_pyramid line pyramid = Ok false
      <-> Forall (rejects line) (faces_in_order pyramid))
  /\ (forall e : exn,
         line_intersection_with_pyramid line pyramid = Raise e
         <-> exists (pre : list Plane) (face : Plane) (post : list Plane),
               faces_in_order pyramid = (pre ++ face :: post)%list
               /\ Forall (rejects line) pre /\ raises line face e)
  /\ (forall (pre : list Plane) (face : Plane) (later : list Plane),
         Forall (rejects line) pre ->
         accepts line face ->
         scan_faces line (pre ++ face :: later) = Ok true)
  /\ ((forall (face : Plane) (e : exn),
          In face (faces_in_order pyramid) -> ~ raises line face e) ->
      (line_intersection_with_pyramid line pyramid = Ok true
       <-> Exists (accepts line) (faces_in_order pyramid))
      /\ (line_intersection_with_pyramid line pyramid = Ok false
          <-> ~ Exists (accepts line) (faces_in_order pyramid))).
Proof.
  rewrite query_is_scan.
  split; [ apply faces_are_faces_in_order | ].
  split; [ reflexivity | ].
  split; [ apply scan_faces_Ok_true | ].
  split; [ apply scan_faces_Ok_false | ].
  split; [ intros e; apply scan_faces_Raise | ].
  split.
  { intros pre face later Hpre Hacc.
    rewrite (scan_faces_after_rejected _ _ _ Hpre).
    apply scan_faces_accepts, Hacc. }
  intros Hsafe.
  assert (Hno : forall e, scan_faces line (faces_in_order pyramid)
                          <> Raise e).
  { intros e He. apply scan_faces_Raise in He
      as (pre & face & post & Heq & _ & Hraise).
    apply (Hsafe face e); [ | exact Hraise ].
    rewrite Heq. apply in_elt. }
  assert (Htrue : scan_faces line (faces_in_order pyramid) = Ok true
                  <-> Exists (accepts line) (faces_in_order pyramid)).
  { split.
    - intros H. apply scan_faces_Ok_true in H
        as (pre & face & post & -> & _ & Hacc).
      apply Exists_app. right. left. exact Hacc.
    - intros Hex.
      destruct (scan_faces line (faces_in_order pyramid))
        as [[ | ] | e] eqn:Hscan; [ reflexivity | | ].
      + exfalso. apply scan_faces_Ok_false in Hscan.
        apply Exists_exists in Hex as (face & Hface & p & Hp & Hin).
        pose proof (proj1 (Forall_forall _ _) Hscan face Hface) as Hrej.
        destruct Hrej as [Hnone | (q & Hq & Hout)]; congruence.
      + exfalso. apply (Hno e). reflexivity. }
  split; [ exact Htrue | ].
  rewrite <- Htrue.
  destruct (scan_faces line (faces_in_order pyramid)) as [[ | ] | e] eqn:Hscan.
  - split; [ discriminate | intros H; exfalso; apply H; reflexivity ].
  - split; [ intros _; discriminate | reflexivity ].
  - exfalso. apply (Hno e). reflexivity.
Qed.


End Binary64.

(** * Binary64 inputs against their exact geometry *)

Section ExactInputs.

Import Q2.
Local Open Scope R_scope.

Lemma F2R_zero : Exact.F2R 0%float = 0.
Proof.
  unfold Exact.F2R. change (Prim2SF 0%float) with (S754_zero false).
  reflexivity.
Qed.

Lemma F2R_positive (f : float) (m : positive) (e : Z) :
  Prim2SF f = S754_finite false m e -> 0 < Exact.F2R f.
Proof.
  intros Hf. unfold Exact.F2R. rewrite Hf.
  apply Rmult_lt_0_compat.
  - apply IZR_lt. reflexivity.
  - apply powerRZ_lt. lra.
Qed.

Lemma F2R_small_leg : 0 < Exact.F2R 0x1p-300%float.
Proof. eapply F2R_positive. vm_compute. reflexivity. Qed.


(** The right triangle with legs [e] at the origin has nonzero area. *)
Lemma right_triangle_area (e : R) :
  0 < e ->
  face_area (Plane_init (mkVector3 0 0 0, mkVector3 e 0 0, mkVector3 0 e 0))
  <> 0.
Proof.
  intros He HA. apply face_area_zero_iff in HA.
  apply (f_equal z) in HA. revert HA.
  cbn [x y z cross_product sub vertex0 vertex1 vertex2 plane_vertices
       Plane_init fst snd zero].
  intros HA. nra.
Qed.



Lemma small_triangle_exact :
  Exact.plane Q2F.small_triangle
  = Plane_init (mkVector3 0 0 0,
                mkVector3 (Exact.F2R 0x1p-300%float) 0 0,
                mkVector3 0 (Exact.F2R 0x1p-300%float) 0).
Proof.
  unfold Exact.plane, Exact.vector, Q2F.small_triangle.
  cbn [Q2F.vertex0 Q2F.vertex1 Q2F.vertex2 Q2F.plane_vertices
       Q2F.Plane_init Q2F.x Q2F.y Q2F.z fst snd].
  rewrite F2R_zero. reflexivity.
Qed.

Lemma small_triangle_area : face_area (Exact.plane Q2F.small_triangle) <> 0.
Proof.
  rewrite small_triangle_exact. apply right_triangle_area, F2R_small_leg.
Qed.



Lemma small_triangle_raises_at_vertex1 :
  Q2F.point_in_triangle (Q2F.mkVector3 0x1p-300 0 0) Q2F.small_triangle
  = Raise ZeroDivisionError.
Proof. vm_compute. reflexivity. Qed.



(** Counterexample to C5 as stated: the vertices (0,0,0), (2^-300,0,0),
    (0,2^-300,0) are not collinear and the area is not zero, yet the test
    divides by zero. *)
Lemma point_in_triangle_divides_by_zero_with_nonzero_area :
  ~ collinear (vertex0 (Exact.plane Q2F.small_triangle))
              (vertex1 (Exact.plane Q2F.small_triangle))
              (vertex2 (Exact.plane Q2F.small_triangle))
  /\ face_area (Exact.plane Q2F.small_triangle) <> 0
  /\ Q2F.point_in_triangle (Q2F.mkVector3 0x1p-300 0 0) Q2F.small_triangle
     = Raise ZeroDivisionError.
Proof.
  pose proof small_triangle_area as HA.
  split; [ | split; [ exact HA | exact small_triangle_raises_at_vertex1 ] ].
  intros Hcol. apply HA, collinear_iff_zero_area, Hcol.
Qed.


End ExactInputs.

Section Binary64Inputs.

Import Q2F.
Local Open Scope float_scope.

(** Counterexample to C1 as stated: on the small pyramid no face yields an
    intersection point that the membership test accepts, yet the query does
    not return false: the first face raises ZeroDivisionError. *)
Lemma query_raises_when_no_face_accepts :
  faces small_pyramid = Ok (faces_in_order small_pyramid)
  /\ ~ Exists (accepts z_axis) (faces_in_order small_pyramid)
  /\ line_intersection_with_pyramid z_axis small_pyramid
     = Raise ZeroDivisionError
  /\ line_intersection_with_pyramid z_axis small_pyramid <> Ok false.
Proof.
  split; [ reflexivity | ].
  split.
  { intros Hex. apply Exists_exists in Hex as (face & Hface & p & Hp & Hin).
    cbv [faces_in_order small_pyramid pyramid_vertices] in Hface.
    cbn [In] in Hface.
    destruct Hface as [<- | [<- | [<- | [<- | []]]]].
    - assert (Hs : line_plane_intersection_point
                     z_axis
                     (Plane_init (mkVector3 0 0 0, mkVector3 0x1p-300 0 0,
                                  mkVector3 0 0x1p-300 0))
                   = Ok (Some (mkVector3 0 0 0)))
        by (vm_compute; reflexivity).
      rewrite Hs in Hp. injection Hp as <-.
      assert (Hr : point_in_triangle
                     (mkVector3 0 0 0)
                     (Plane_init (mkVector3 0 0 0, mkVector3 0x1p-300 0 0,
                                  mkVector3 0 0x1p-300 0))
                   = Raise ZeroDivisionError)
        by (vm_compute; reflexivity).
      rewrite Hr in Hin. discriminate.
    - assert (Hs : line_plane_intersection_point
                     z_axis
                     (Plane_init (mkVector3 0 0 0, mkVector3 0x1p-300 0 0,
                                  mkVector3 0 0 1))
                   = Ok None)
        by (vm_compute; reflexivity).
      rewrite Hs in Hp. discriminate.
    - assert (Hs : line_plane_intersection_point
                     z_axis
                     (Plane_init (mkVector3 0 0 0, mkVector3 0 0x1p-300 0,
                                  mkVector3 0 0 1))
                   = Ok None)
        by (vm_compute; reflexivity).
      rewrite Hs in Hp. discriminate.
    - assert (Hs : line_plane_intersection_point
                     z_axis
                     (Plane_init (mkVector3 0x1p-300 0 0,
                                  mkVector3 0 0x1p-300 0, mkVector3 0 0 1))
                   = Ok (Some (mkVector3 0 0 0)))
        by (vm_compute; reflexivity).
      rewrite Hs in Hp. injection Hp as <-.
      assert (Hr : point_in_triangle
                     (mkVector3 0 0 0)
                     (Plane_init (mkVector3 0x1p-300 0 0,
                                  mkVector3 0 0x1p-300 0, mkVector3 0 0 1))
                   = Ok false)
        by (vm_compute; reflexivity).
      rewrite Hr in Hin. discriminate. }
  assert (Hq : line_intersection_with_pyramid z_axis small_pyramid
               = Raise ZeroDivisionError) by (vm_compute; reflexivity).
  rewrite Hq. split; [ reflexivity | discriminate ].
Qed.

(** Counterexample to C8 as stated: at the vertices (0.1, 0.2, 0.3),
    (0.7, 0.5, 0.9), (0.4, 0.8, 0.6) the x component of the normal after
    the swap of v0 and v1, and after the swap of v0 and v2, is not equal to
    the negated x component of the original normal. *)
Lemma normal_not_negated_by_swap_with_v0 :
  (x (normal_vector (Plane_init (decimal_v1, decimal_v0, decimal_v2)))
   =? - x (normal_vector (Plane_init (decimal_v0, decimal_v1, decimal_v2))))
  = false
  /\ (x (normal_vector (Plane_init (decimal_v2, decimal_v1, decimal_v0)))
      =? - x (normal_vector (Plane_init (decimal_v0, decimal_v1,
                                         decimal_v2))))
     = false
  /\ normal_vector (Plane_init (decimal_v1, decimal_v0, decimal_v2))
     <> opp (normal_vector (Plane_init (decimal_v0, decimal_v1, decimal_v2))).
Proof.
  assert (H1 : (x (normal_vector
                     (Plane_init (decimal_v1, decimal_v0, decimal_v2)))
                =? - x (normal_vector
                          (Plane_init (decimal_v0, decimal_v1, decimal_v2))))
               = false) by (vm_compute; reflexivity).
  split; [ exact H1 | split; [ vm_compute; reflexivity | ] ].
  intros Heq. rewrite Heq in H1. vm_compute in H1. discriminate.
Qed.



End Binary64Inputs.

(** * The normal under transpositions, exact and binary64 *)

Section Transpositions.

Local Open Scope float_scope.

Lemma SF64mul_comm (a b : spec_float) : SF64mul a b = SF64mul b a.
Proof.
  unfold SF64mul, SFmul.
  destruct a as [sa | sa | | sa ma ea], b as [sb | sb | | sb mb eb];
    try reflexivity; rewrite ?(xorb_comm sa sb); try reflexivity.
  rewrite Pos.mul_comm, Z.add_comm. reflexivity.
Qed.

Lemma float_mul_comm (a b : float) : a * b = b * a.
Proof. apply Prim2SF_inj. rewrite !mul_spec. apply SF64mul_comm. Qed.

(** Rounding to nearest even is symmetric in the sign. *)
Lemma binary_round_aux_negb (s : bool) (m e : Z) (l : location) :
  binary_round_aux prec emax (negb s) m e l
  = SFopp (binary_round_aux prec emax s m e l).
Proof.
  unfold binary_round_aux.
  destruct (shr_fexp prec emax m e l) as [mrs' e'].
  destruct (shr_fexp prec emax _ e' loc_Exact) as [mrs'' e''].
  destruct (shr_m mrs''); try reflexivity.
  destruct (Z.leb e'' (emax - prec)); reflexivity.
Qed.

Lemma binary_round_negb (s : bool) (m : positive) (e : Z) :
  binary_round prec emax (negb s) m e = SFopp (binary_round prec emax s m e).
Proof.
  unfold binary_round.
  destruct (shl_align m e _) as [mz ez]. apply binary_round_aux_negb.
Qed.

Lemma binary_normalize_opp (m e : Z) :
  m <> 0%Z ->
  binary_normalize prec emax (- m) e false
  = SFopp (binary_normalize prec emax m e false).
Proof.
  destruct m as [ | p | p ]; intros Hm; [ congruence | | ];
    cbn [Z.opp binary_normalize].
  - apply (binary_round_negb false).
  - rewrite (binary_round_negb false).
    destruct (binary_round prec emax false p e)
      as [ [ | ] | [ | ] | | [ | ] ? ? ]; reflexivity.
Qed.

(** Swapping the operands of a subtraction negates the result, except that
    a zero result is a zero both ways. *)
Lemma SF64sub_swap (a b : spec_float) :
  SF64sub b a = SFopp (SF64sub a b)
  \/ (exists s s' : bool,
        SF64sub b a = S754_zero s /\ SF64sub a b = S754_zero s').
Proof.
  unfold SF64sub, SFsub.
  destruct a as [sa | sa | | sa ma ea], b as [sb | sb | | sb mb eb];
    try (left; reflexivity);
    try (destruct sa, sb;
         (left; reflexivity) || (right; do 2 eexists; split; reflexivity));
    try (destruct sa; left; reflexivity);
    try (destruct sb; left; reflexivity).
  rewrite (Z.min_comm eb ea).
  set (A := cond_Zopp sa (Z.pos (fst (shl_align ma ea (Z.min ea eb))))).
  set (B := cond_Zopp sb (Z.pos (fst (shl_align mb eb (Z.min ea eb))))).
  cbv zeta.
  destruct (Z.eq_dec (A - B) 0) as [H0 | Hn].
  - right. replace (B - A)%Z with 0%Z by lia. rewrite H0.
    do 2 eexists. split; reflexivity.
  - left. replace (B - A)%Z with (- (A - B))%Z by lia.
    apply binary_normalize_opp, Hn.
Qed.

Lemma SFeqb_refl (f : spec_float) : f <> S754_nan -> SFeqb f f = true.
Proof.
  unfold SFeqb, SFcompare.
  destruct f as [s | s | | s m e]; intros Hf; try reflexivity.
  - destruct s; reflexivity.
  - congruence.
  - rewrite Z.compare_refl.
    assert (H : PosDef.Pos.compare_cont Eq m m = Eq)
      by apply Pos.compare_cont_refl.
    rewrite H. destruct s; reflexivity.
Qed.

Lemma float_sub_swap (p q : float) : Q2F.negation_of (q - p) (p - q).
Proof.
  unfold Q2F.negation_of, PrimFloat.is_nan.
  rewrite !FloatAxioms.eqb_spec, opp_spec, !sub_spec.
  destruct (SF64sub_swap (Prim2SF p) (Prim2SF q))
    as [H | (s & s' & H1 & H2)].
  - rewrite H.
    destruct (SF64sub (Prim2SF p) (Prim2SF q)) eqn:Hs.
    + left. apply SFeqb_refl. discriminate.
    + left. apply SFeqb_refl. discriminate.
    + right. split; reflexivity.
    + left. apply SFeqb_refl. discriminate.
  - left. rewrite H1, H2. destruct s, s'; reflexivity.
Qed.

(** C8 (amended): in exact real arithmetic each of the three transpositions
    of the vertices negates the normal derived by the Plane constructor; in
    binary64 the swap of v1 and v2 negates each component of the normal
    (equal to the negation under [==], or NaN both ways). *)
Theorem normal_under_transpositions :
  (forall v0 v1 v2 : Q2.Vector3,
      Q2.normal_vector (Q2.Plane_init (v1, v0, v2))
      = Q2.opp (Q2.normal_vector (Q2.Plane_init (v0, v1, v2)))
      /\ Q2.normal_vector (Q2.Plane_init (v2, v1, v0))
         = Q2.opp (Q2.normal_vector (Q2.Plane_init (v0, v1, v2)))
      /\ Q2.normal_vector (Q2.Plane_init (v0, v2, v1))
         = Q2.opp (Q2.normal_vector (Q2.Plane_init (v0, v1, v2))))
  /\ (forall v0 v1 v2 : Q2F.Vector3,
         Q2F.negation_of
           (Q2F.x (Q2F.normal_vector (Q2F.Plane_init (v0, v2, v1))))
           (Q2F.x (Q2F.normal_vector (Q2F.Plane_init (v0, v1, v2))))
         /\ Q2F.negation_of
              (Q2F.y (Q2F.normal_vector (Q2F.Plane_init (v0, v2, v1))))
              (Q2F.y (Q2F.normal_vector (Q2F.Plane_init (v0, v1, v2))))
         /\ Q2F.negation_of
              (Q2F.z (Q2F.normal_vector (Q2F.Plane_init (v0, v2, v1))))
              (Q2F.z (Q2F.normal_vector (Q2F.Plane_init (v0, v1, v2))))).
Proof.
  split; [ exact normal_negated_by_transposition | ].
  intros v0 v1 v2.
  unfold Q2F.normal_vector, Q2F.Plane_init, Q2F.cross_product.
  cbn [Q2F.normal_v Q2F.x Q2F.y Q2F.z].
  set (u := Q2F.sub v1 v0). set (w := Q2F.sub v2 v0).
  rewrite (float_mul_comm (Q2F.y w) (Q2F.z u)),
          (float_mul_comm (Q2F.z w) (Q2F.y u)),
          (float_mul_comm (Q2F.z w) (Q2F.x u)),
          (float_mul_comm (Q2F.x w) (Q2F.z u)),
          (float_mul_comm (Q2F.x w) (Q2F.y u)),
          (float_mul_comm (Q2F.y w) (Q2F.x u)).
  repeat split; apply float_sub_swap.
Qed.

End Transpositions.
